(** * GestureSound: the finger controller [control_fingers.ino]

    A shallow embedding of the sketch that drives a six-servo hand from
    serial command lines, with hall sensors that stop a finger early.

    The sketch has two lanes.  [recieveDataCode] (a FreeRTOS task) turns the
    serial byte stream into the array [state0] and raises [change]; [loop]
    (the Arduino main loop) animates the servos from [state1] towards
    [state0] in 26 motion steps and then copies [state0] into [state1].

    Modelling decisions, all visible in the definitions below:
    - the globals of the sketch are one record, [Globals];
    - both lanes are written in a small state-and-output monad, [Lane]: the
      state is [Globals], the output is the list of calls made to the
      hardware ([analogRead], [pwm.setPWM], [delay]);
    - what the hardware returns comes from a [World]: the value of every
      [analogRead], and the bytes that the receive task consumes while the
      main lane sleeps inside a [delay].  In [loop] the receive task is
      therefore interleaved at the granularity of the [delay] calls;
    - the sketch has no lock, and the receive task runs on the other core:
      for the resync of lines 126-128 both tasks are also given as lists of
      single stores, interleaved by an arbitrary schedule
      ([animate_unlocked]);
    - [int] and [long] are 32 bits wide and wrap around ([Int32]);
    - the calibration macros [SERVOMIN] and [SERVOMAX] are placeholders in
      the sketch, so they are section variables here;
    - [float] is IEEE-754 binary32, taken from the standard library's
      [SpecFloat] with a 24-bit significand.

    Part I is the sketch, Part II the vocabulary in which its properties are
    stated, Part III the proofs, Part IV the theorems at concrete inputs. *)

From Stdlib Require Import ZArith List Ascii String QArith Qround Qabs Lia Lqa Bool.
From Stdlib Require Import Floats.SpecFloat.
From stdpp Require Import base list.
Import ListNotations.

Local Open Scope string_scope.
Local Open Scope list_scope.
Local Open Scope Z_scope.

(** * Part I: the sketch *)

(** ** The Arduino [String] operations used by the sketch *)

Module WString.

(** [isspace] and [isdigit] of the C library, on one byte. *)
Definition isspace (c : ascii) : bool :=
  let n := N_of_ascii c in ((9 <=? n) && (n <=? 13))%N || (n =? 32)%N.

Definition isdigit (c : ascii) : bool :=
  let n := N_of_ascii c in ((48 <=? n) && (n <=? 57))%N.

Definition digit_value (c : ascii) : Z := Z.of_N (N_of_ascii c) - 48.

Fixpoint skip_space (s : string) : string :=
  match s with
  | String c s' => if isspace c then skip_space s' else s
  | EmptyString => s
  end.

Fixpoint digits (acc : Z) (s : string) : Z :=
  match s with
  | String c s' => if isdigit c then digits (10 * acc + digit_value c) s' else acc
  | EmptyString => acc
  end.

(** [atol]: optional white space, optional sign, then the longest run of
    decimal digits; 0 when there is none.  The sketch only calls it on
    strings of at most one character, far from the range of [long]. *)
Definition atol (s : string) : Z :=
  match skip_space s with
  | String "-" s' => - digits 0 s'
  | String "+" s' => digits 0 s'
  | s' => digits 0 s'
  end.

(** [String::toInt]: [atol] of the buffer, 0 for the empty string. *)
Definition toInt (s : string) : Z := atol s.

(** [String::substring(left, right)]: the characters at positions
    [left .. right-1]; the bounds are swapped when out of order, the
    result is empty when [left] is past the end, and [right] is clamped
    to the length. *)
Definition substring (left right : nat) (s : string) : string :=
  let lo := Nat.min left right in
  let hi := Nat.max left right in
  if (String.length s <=? lo)%nat then EmptyString
  else String.substring lo (Nat.min hi (String.length s) - lo) s.

(** [s += c] *)
Definition concat (s : string) (c : ascii) : string :=
  String.append s (String c EmptyString).

End WString.

(** Conversion of an integer to [bool], as in [state0[i] = ....toInt()]. *)
Definition bool_of_long (z : Z) : bool := negb (z =? 0).

(** ** Globals of the sketch *)

Record Globals := mkGlobals {
  state0 : list bool;        (* bool state0[6]: the target of every finger *)
  state1 : list bool;        (* bool state1[6]: the latched vector *)
  change : bool;             (* bool change *)
  sData  : ascii;            (* char sData *)
  state  : string;           (* String state: the line being accumulated *)
  hall   : list (list Z)     (* int hall[5][3]: pin, last reading, threshold *)
}.

Definition init : Globals := {|
  state0 := [false; false; false; false; false; false];
  state1 := [false; false; false; false; false; false];
  change := false;
  sData  := "000"%char;
  state  := EmptyString;
  hall   := [[26; 0; 2200]; [27; 0; 2400]; [14; 0; 2300]; [25; 0; 2200]; [12; 0; 2300]]
|}.

(** The finger ids: indices into [state0]/[state1] and servo channels. *)
Definition wrist  : Z := 0.
Definition thumb  : Z := 4.
Definition index  : Z := 1.
Definition middle : Z := 2.
Definition ring   : Z := 3.
Definition pinky  : Z := 5.

(** Field updates. *)
Definition set_state0 (v : list bool) (g : Globals) : Globals :=
  mkGlobals v (state1 g) (change g) (sData g) (state g) (hall g).
Definition set_state1 (v : list bool) (g : Globals) : Globals :=
  mkGlobals (state0 g) v (change g) (sData g) (state g) (hall g).
Definition set_change (v : bool) (g : Globals) : Globals :=
  mkGlobals (state0 g) (state1 g) v (sData g) (state g) (hall g).
Definition set_sData (v : ascii) (g : Globals) : Globals :=
  mkGlobals (state0 g) (state1 g) (change g) v (state g) (hall g).
Definition set_state (v : string) (g : Globals) : Globals :=
  mkGlobals (state0 g) (state1 g) (change g) (sData g) v (hall g).
Definition set_hall (v : list (list Z)) (g : Globals) : Globals :=
  mkGlobals (state0 g) (state1 g) (change g) (sData g) (state g) v.

(** Array accesses.  Every index the sketch uses is in range; out of range
    a read here gives the default and a write does nothing. *)
Definition rd {A} `{Inhabited A} (a : list A) (i : Z) : A := a !!! Z.to_nat i.
Definition wr {A} (a : list A) (i : Z) (v : A) : list A := <[Z.to_nat i := v]> a.
Definition rd2 (a : list (list Z)) (i j : Z) : Z := rd (rd a i) j.
Definition wr2 (a : list (list Z)) (i j : Z) (v : Z) : list (list Z) :=
  wr a i (wr (rd a i) j v).

(** ** Hardware calls and the lane monad *)

Inductive event :=
| AnalogRead (pin : Z)            (* analogRead(pin) *)
| SetPWM (num on off : Z)         (* pwm.setPWM(num, on, off), arguments as passed *)
| Delay (ms : Z).                 (* delay(ms) *)

Definition Lane (A : Type) : Type := Globals -> A * Globals * list event.

Definition val {A} (r : A * Globals * list event) : A := fst (fst r).
Definition post {A} (r : A * Globals * list event) : Globals := snd (fst r).
Definition out {A} (r : A * Globals * list event) : list event := snd r.

Definition ret {A} (a : A) : Lane A := fun g => (a, g, []).
Definition bind {A B} (m : Lane A) (k : A -> Lane B) : Lane B :=
  fun g => let r1 := m g in
           let r2 := k (val r1) (post r1) in
           (val r2, post r2, out r1 ++ out r2).
Definition gets {A} (f : Globals -> A) : Lane A := fun g => (f g, g, []).
Definition modify (f : Globals -> Globals) : Lane unit := fun g => (tt, f g, []).
Definition emit (e : event) : Lane unit := fun g => (tt, g, [e]).

Notation "x <- m ;; k" := (bind m (fun x => k))
  (at level 100, m at next level, right associativity).
Notation "m ;; k" := (bind m (fun _ => k))
  (at level 100, right associativity).

(** [for (int i = lo; i < hi; i += stride) body(i)].  The recursion is on a
    counter; [for_lt] starts it at [hi - lo], which is never exhausted when
    the stride is positive ([for_lt_unfold] below). *)
Fixpoint for_fuel (fuel : nat) (i hi stride : Z) (body : Z -> Lane unit) : Lane unit :=
  match fuel with
  | O => ret tt
  | S fuel' =>
      if i <? hi then body i ;; for_fuel fuel' (i + stride) hi stride body
      else ret tt
  end.

Definition for_lt (lo hi stride : Z) (body : Z -> Lane unit) : Lane unit :=
  for_fuel (Z.to_nat (hi - lo)) lo hi stride body.

(** Running a body over an explicit list of indices. *)
Fixpoint for_each (l : list Z) (body : Z -> Lane unit) : Lane unit :=
  match l with
  | [] => ret tt
  | i :: l' => body i ;; for_each l' body
  end.

(** ** The receive lane: [recieveDataCode] *)

Definition newline : ascii := "010"%char.

(** The body of [while(Serial.available())] for the byte [c] that
    [Serial.read()] returned.  The [break] after a complete line only ends
    the polling burst; the next byte is handled by the same body. *)
Definition on_byte (c : ascii) : Lane unit :=
  modify (set_sData c) ;;
  d <- gets sData ;;
  if Ascii.eqb d newline then
    for_lt 0 6 1 (fun i =>
      s <- gets state ;;
      modify (fun g => set_state0
        (wr (state0 g) i
            (bool_of_long (WString.toInt
               (WString.substring (Z.to_nat i) (Z.to_nat (i + 1)) s)))) g)) ;;
    modify (set_state EmptyString) ;;
    modify (set_change true)
  else
    modify (fun g => set_state (WString.concat (state g) (sData g)) g).

(** The receive task fed with a run of bytes. *)
Fixpoint recv (bytes : string) (g : Globals) : Globals :=
  match bytes with
  | EmptyString => g
  | String c rest => recv rest (post (on_byte c g))
  end.

(** A complete command line: the text followed by the terminator. *)
Definition line (text : string) : string :=
  String.append text (String newline EmptyString).

(** Lines 40-52: one polling burst of the receive task, [avail] being the
    bytes waiting in the serial buffer.  The burst handles them one by one
    and stops after a terminator (the [break] of line 48); it returns the
    globals and the bytes it has left unread. *)
Fixpoint burst (avail : string) (g : Globals) : Globals * string :=
  match avail with
  | EmptyString => (g, EmptyString)
  | String c rest =>
      let g' := post (on_byte c g) in
      if Ascii.eqb (sData g') newline then (g', rest) else burst rest g'
  end.

(** Lines 39-54: the rounds of the endless loop of the task.  Round [n]
    starts with the bytes left by the round before, followed by the bytes
    that arrived during the [delay(10)] in between (entry [n] of
    [arrivals]). *)
Fixpoint poll (arrivals : list string) (pending : string) (g : Globals)
    : Globals * string :=
  match arrivals with
  | [] => (g, pending)
  | a :: later =>
      let r := burst (String.append pending a) g in
      poll later (snd r) (fst r)
  end.

(** ** The two tasks at the grain of their stores *)

(** [recieveDataCode] is created on core 0 (lines 98-105) and [loop] runs
    on the other core, with no lock between them: a store of one task can
    fall between two stores of the other.  Here the handling of a byte
    (lines 41-51) and the resync (lines 126-128) are split into their single
    stores. *)
Inductive store :=
| ReadByte (c : ascii)     (* line 41: sData = Serial.read() *)
| Decode (i : Z)           (* line 44: state0[i] = state.substring(i, i+1).toInt() *)
| ClearBuffer              (* line 46: state = "" *)
| RaiseChange              (* line 47: change = true *)
| Append                   (* line 50: state += sData *)
| Copy (i : Z).            (* line 127: state1[i] = state0[i] *)

Definition store_step (s : store) (g : Globals) : Globals :=
  match s with
  | ReadByte c => set_sData c g
  | Decode i =>
      set_state0
        (wr (state0 g) i
            (bool_of_long (WString.toInt
               (WString.substring (Z.to_nat i) (Z.to_nat (i + 1)) (state g))))) g
  | ClearBuffer => set_state EmptyString g
  | RaiseChange => set_change true g
  | Append => set_state (WString.concat (state g) (sData g)) g
  | Copy i => set_state1 (wr (state1 g) i (rd (state0 g) i)) g
  end.

Fixpoint stores (l : list store) (g : Globals) : Globals :=
  match l with
  | [] => g
  | s :: later => stores later (store_step s g)
  end.

(** The stores of the receive task for the byte [c], lines 41-51. *)
Definition byte_stores (c : ascii) : list store :=
  ReadByte c ::
  (if Ascii.eqb c newline
   then List.map Decode [0; 1; 2; 3; 4; 5] ++ [ClearBuffer; RaiseChange]
   else [Append]).

Fixpoint recv_stores (bytes : string) : list store :=
  match bytes with
  | EmptyString => []
  | String c rest => byte_stores c ++ recv_stores rest
  end.

(** The stores of lines 126-128. *)
Definition resync_stores : list store := List.map Copy [0; 1; 2; 3; 4; 5].

(** One interleaving of the stores [main] of [loop] with the stores [rx] of
    the receive task, each list in its own order: an entry [true] of the
    schedule lets [loop] do its next store, an entry [false] the receive
    task; when the schedule ends, what is left of [main] and then of [rx]
    follows. *)
Fixpoint interleave (sched : list bool) (main rx : list store) : list store :=
  match sched with
  | [] => main ++ rx
  | true :: sched' =>
      match main with
      | m :: main' => m :: interleave sched' main' rx
      | [] => interleave sched' [] rx
      end
  | false :: sched' =>
      match rx with
      | r :: rx' => r :: interleave sched' main rx'
      | [] => interleave sched' main []
      end
  end.

(** ** Integer arithmetic *)

(** [int] and [long] of the ESP32 (the board of [xTaskCreatePinnedToCore]):
    both are 32 bits wide, two's complement.  A value is a [Z] in
    [-2^31 .. 2^31 - 1]; a result outside this range wraps around, as the
    machine instructions do. *)
Module Int32.

Definition wrap (z : Z) : Z := (z + 2 ^ 31) mod 2 ^ 32 - 2 ^ 31.

Definition add (x y : Z) : Z := wrap (x + y).
Definition sub (x y : Z) : Z := wrap (x - y).
Definition mul (x y : Z) : Z := wrap (x * y).
(** [x / y]: the quotient truncated towards zero. *)
Definition quot (x y : Z) : Z := wrap (Z.quot x y).

End Int32.

(** ** Arithmetic of the Arduino core *)

Module Arduino.

(** [long map(long x, long in_min, long in_max, long out_min, long out_max)]:
    [(x - in_min) * (out_max - out_min) / (in_max - in_min) + out_min]
    in [long] arithmetic, with the truncating division of C. *)
Definition map (x in_min in_max out_min out_max : Z) : Z :=
  Int32.add
    (Int32.quot (Int32.mul (Int32.sub x in_min) (Int32.sub out_max out_min))
                (Int32.sub in_max in_min))
    out_min.

End Arduino.

(** [float]: IEEE-754 binary32, round to nearest even. *)
Module Float32.

Definition prec : Z := 24.
Definition emax : Z := 128.

(** [float(n)] for an [int] [n]. *)
Definition of_int (n : Z) : spec_float := binary_normalize prec emax n 0 false.

Definition add : spec_float -> spec_float -> spec_float := SFadd prec emax.
Definition sub : spec_float -> spec_float -> spec_float := SFsub prec emax.
Definition mul : spec_float -> spec_float -> spec_float := SFmul prec emax.
Definition div : spec_float -> spec_float -> spec_float := SFdiv prec emax.

(** [round(x)] converted to [int]: the integer nearest to the value of
    [x], halves away from zero, that is [floor (m * 2^e + 1/2)] on the
    magnitude [m * 2^e], computed with shifts.  (Both the Arduino macro
    [((x)>=0?(long)((x)+0.5):(long)((x)-0.5))] and the C library's [round]
    compute this for the finite values that occur; infinities and NaN,
    whose conversion is undefined in C, give 0 here.) *)
Definition round (x : spec_float) : Z :=
  match x with
  | S754_finite s m e =>
      let a := match e with
               | Zneg p => Z.shiftr (Zpos m + Z.shiftl 1 (Zpos p - 1)) (Zpos p)
               | _ => Z.shiftl (Zpos m) e
               end in
      if s then - a else a
  | _ => 0
  end.

End Float32.

(** ** The environment of the main lane *)

Record World := mkWorld {
  adc   : Z -> Z -> Z;   (* [adc i pin]: what analogRead(pin) returns in motion step [i] *)
  rx17  : Z -> string;   (* bytes the receive task consumes during the delay(17) of step [i] *)
  rx100 : string         (* bytes it consumes during the delay(100) that ends loop() *)
}.

Definition analogRead (w : World) (i pin : Z) : Lane Z :=
  emit (AnalogRead pin) ;; ret (adc w i pin).

Definition setPWM (num on off : Z) : Lane unit := emit (SetPWM num on off).

(** [delay(ms)]: the main lane sleeps and the receive task handles the bytes
    that arrive meanwhile. *)
Definition delay (ms : Z) (incoming : string) : Lane unit :=
  emit (Delay ms) ;; modify (recv incoming).

(** ** The main lane: [moveFinger] and [loop] *)

Section Calibrated.

Variables SERVOMIN SERVOMAX : Z.

(** [int degToPwm(int degree)].  Where the product inside [map] fits in 32
    bits, which is so for every pulse width of the driver and every angle
    the sketch passes, the result does not depend on the width of [long]. *)
Definition degToPwm (degree : Z) : Z := Arduino.map degree 0 320 SERVOMIN SERVOMAX.

Definition deg      : Z := degToPwm 75.
Definition deg1     : Z := degToPwm 95.
Definition deg2     : Z := degToPwm 85.
Definition startDeg : Z := degToPwm 180.

Definition moveFinger (fingerId : Z) (flex : bool) (iteration : Z) : Lane unit :=
  if negb (fingerId =? ring) && negb (fingerId =? pinky) then
    if flex then
      if fingerId =? thumb then
        let fPwm := Float32.add (Float32.of_int SERVOMIN)
                      (Float32.div (Float32.mul (Float32.of_int 103) (Float32.of_int iteration))
                                   (Float32.of_int 130)) in
        let iPwm := Float32.round fPwm in
        setPWM fingerId 0 iPwm
      else
        setPWM fingerId 0 (Int32.add SERVOMIN iteration)
    else
      if fingerId =? thumb then
        let fPwm := Float32.sub (Float32.of_int deg)
                      (Float32.div (Float32.mul (Float32.of_int 103) (Float32.of_int iteration))
                                   (Float32.of_int 130)) in
        let iPwm := Float32.round fPwm in
        setPWM fingerId 0 iPwm
      else
        setPWM fingerId 0 (Int32.sub deg1 iteration)
  else
    if flex then setPWM fingerId 0 (Int32.sub startDeg iteration)
    else setPWM fingerId 0 (Int32.add deg2 iteration).

(** Lines 113-116: the sensor gate for hall row [k] in motion step [i]. *)
Definition gate_pass (w : World) (i k : Z) : Lane unit :=
  pin <- gets (fun g => rd2 (hall g) k 0) ;;
  v <- analogRead w i pin ;;
  modify (fun g => set_hall (wr2 (hall g) k 1 v) g) ;;
  r <- gets (fun g => rd2 (hall g) k 1) ;;
  t <- gets (fun g => rd2 (hall g) k 2) ;;
  if r >? t then
    modify (fun g => set_state1 (wr (state1 g) (k + 1) (rd (state0 g) (k + 1))) g)
  else ret tt.

(** Lines 112-117: the sensor gate of motion step [i]. *)
Definition sensor_gate (w : World) (i : Z) : Lane unit :=
  for_lt 0 5 1 (gate_pass w i).

(** Lines 119-121: finger [j] moves when its target differs from its latch. *)
Definition move_pass (i j : Z) : Lane unit :=
  a <- gets (fun g => rd (state0 g) j) ;;
  b <- gets (fun g => rd (state1 g) j) ;;
  if negb (Bool.eqb a b) then
    flex <- gets (fun g => rd (state0 g) j) ;;
    moveFinger j flex i
  else ret tt.

(** Lines 118-122. *)
Definition move_fingers (i : Z) : Lane unit :=
  for_lt 0 6 1 (move_pass i).

(** Lines 112-123: one pass of the [for (i ...)] body. *)
Definition motion_step (w : World) (i : Z) : Lane unit :=
  sensor_gate w i ;; move_fingers i ;; delay 17 (rx17 w i).

(** Lines 126-128. *)
Definition resync : Lane unit :=
  for_lt 0 6 1 (fun i =>
    modify (fun g => set_state1 (wr (state1 g) i (rd (state0 g) i)) g)).

(** Lines 111-128: the body of [if(change)]. *)
Definition animate (w : World) : Lane unit :=
  for_lt 5 135 5 (motion_step w) ;; resync.

(** Lines 111-128 when the receive task handles [bytes] while the resync
    loop runs, its stores falling among the six copies as [sched] says. *)
Definition animate_unlocked (w : World) (sched : list bool) (bytes : string) : Lane unit :=
  for_lt 5 135 5 (motion_step w) ;;
  modify (stores (interleave sched resync_stores (recv_stores bytes))).

(** [loop()]. *)
Definition loop (w : World) : Lane unit :=
  c <- gets change ;;
  (if c then animate w else ret tt) ;;
  delay 100 (rx100 w).

(** [loop()] called again and again, as the Arduino core does. *)
Fixpoint loops (ws : list World) : Lane unit :=
  match ws with
  | [] => ret tt
  | w :: ws' => loop w ;; loops ws'
  end.

End Calibrated.

(** ** [setup] *)

Definition SERVO_FREQ : Z := 50.

(** The calls [setup] makes; it writes no global. *)
Inductive setup_call :=
| SerialBegin (baud : Z)                           (* Serial.begin(baud) *)
| PinModeInput (pin : Z)                           (* pinMode(pin, INPUT) *)
| PwmBegin                                         (* pwm.begin() *)
| SetOscillatorFrequency (hz : Z)                  (* pwm.setOscillatorFrequency(hz) *)
| SetPWMFreq (hz : Z)                              (* pwm.setPWMFreq(hz) *)
| SetupDelay (ms : Z)                              (* delay(ms) *)
| CreateTask (name : string) (stack priority core : Z).  (* xTaskCreatePinnedToCore *)

(** Lines 85-107, run on the globals [g]. *)
Definition setup (g : Globals) : list setup_call :=
  [SerialBegin 9600] ++
  List.map (fun i => PinModeInput (rd2 (hall g) i 0)) [0; 1; 2; 3; 4] ++
  [PwmBegin; SetOscillatorFrequency 27000000; SetPWMFreq SERVO_FREQ; SetupDelay 10;
   CreateTask "recieveData" 10000 0 0; SetupDelay 500].


(** * Part II: the vocabulary of the properties *)

(** ** Command lines *)

(** The boolean a character stands for: true exactly for '1' .. '9'. *)
Definition flag_of (o : option ascii) : bool :=
  match o with
  | Some c => WString.isdigit c && negb (Ascii.eqb c "0")
  | None => false
  end.

(** What line 44 stores for position [i] of the buffer [s]. *)
Definition decode_at (s : string) (i : nat) : bool :=
  bool_of_long (WString.toInt (WString.substring i (S i) s)).

(** The six stores of lines 43-45 into the array [a]. *)
Definition decoded (s : string) (a : list bool) : list bool :=
  wr (wr (wr (wr (wr (wr a 0 (decode_at s 0)) 1 (decode_at s 1)) 2 (decode_at s 2))
      3 (decode_at s 3)) 4 (decode_at s 4)) 5 (decode_at s 5).

Fixpoint newline_free (s : string) : bool :=
  match s with
  | EmptyString => true
  | String c rest => negb (Ascii.eqb c newline) && newline_free rest
  end.

Fixpoint all_digits (s : string) : bool :=
  match s with
  | EmptyString => true
  | String c rest => WString.isdigit c && all_digits rest
  end.

(** Digit [p] of a line controls the finger whose id is entry [p] of
    [order]: '0' makes its target false, another digit makes it true. *)
Definition follows_order (order : list Z) (text : string) (g : Globals) : Prop :=
  forall (p : nat) (finger : Z) (c : ascii),
    order !! p = Some finger -> String.get p text = Some c ->
    rd (state0 (recv (line text) g)) finger = negb (Ascii.eqb c "0").

(** ** States of the sketch *)

(** Shape of the globals in every state the sketch reaches: two arrays of
    six booleans, and the five hall rows with their pins and thresholds. *)
Definition calibrated (h : list (list Z)) : Prop :=
  exists r0 r1 r2 r3 r4,
    h = [[26; r0; 2200]; [27; r1; 2400]; [14; r2; 2300]; [25; r3; 2200]; [12; r4; 2300]].

Definition wf (g : Globals) : Prop :=
  length (state0 g) = 6%nat /\ length (state1 g) = 6%nat /\ calibrated (hall g).

Definition synced (g : Globals) : Prop := state1 g = state0 g.

(** [g] is well formed and in sync, with the target and the flag of [g0]. *)
Definition settled (g0 g : Globals) : Prop :=
  wf g /\ synced g /\ state0 g = state0 g0 /\ change g = change g0.

(** [g] is well formed, with the target, the buffer and the flag of [g0]. *)
Definition untouched (g0 g : Globals) : Prop :=
  wf g /\ state0 g = state0 g0 /\ state g = state g0 /\ change g = change g0.

(** ** Worlds *)

(** Pin and threshold of hall row [k], as initialised on line 18. *)
Definition pin_of (k : Z) : Z := rd2 (hall init) k 0.
Definition threshold_of (k : Z) : Z := rd2 (hall init) k 2.

(** Sensor [k] reads above its threshold in motion step [i]. *)
Definition exceeds (w : World) (i k : Z) : bool := adc w i (pin_of k) >? threshold_of k.

(** No byte at all reaches the receive lane during this pass of [loop]. *)
Definition silent (w : World) : Prop :=
  (forall i, rx17 w i = EmptyString) /\ rx100 w = EmptyString.

(** No line is completed during this pass of [loop]. *)
Definition no_new_line (w : World) : Prop :=
  (forall i, newline_free (rx17 w i) = true) /\ newline_free (rx100 w) = true.

(** Nothing arrives; the sensors read [sensor]. *)
Definition quiet (sensor : Z -> Z -> Z) : World :=
  mkWorld sensor (fun _ => EmptyString) EmptyString.

(** ** Summaries of one motion step *)

(** The globals after the gate has handled hall row [k]. *)
Definition gate_k (w : World) (i k : Z) (g : Globals) : Globals :=
  let g1 := set_hall (wr2 (hall g) k 1 (adc w i (rd2 (hall g) k 0))) g in
  if rd2 (hall g1) k 1 >? rd2 (hall g1) k 2
  then set_state1 (wr (state1 g1) (k + 1) (rd (state0 g1) (k + 1))) g1
  else g1.

(** [state1] after the five passes of the gate, from target [a] and latch [b]. *)
Definition latched (ex : Z -> bool) (a b : list bool) : list bool :=
  fold_left (fun b' k => if ex k then wr b' (k + 1) (rd a (k + 1)) else b')
            [0; 1; 2; 3; 4] b.

Definition sampled (w : World) (i : Z) : list (list Z) :=
  [[26; adc w i 26; 2200]; [27; adc w i 27; 2400]; [14; adc w i 14; 2300];
   [25; adc w i 25; 2200]; [12; adc w i 12; 2300]].

(** The globals after the sensor gate of step [i]. *)
Definition gated (w : World) (i : Z) (g : Globals) : Globals :=
  mkGlobals (state0 g) (latched (exceeds w i) (state0 g) (state1 g))
            (change g) (sData g) (state g) (sampled w i).

Definition reads : list event :=
  [AnalogRead 26; AnalogRead 27; AnalogRead 14; AnalogRead 25; AnalogRead 12].

(** The values the loop variable of line 111 takes. *)
Definition motion_steps : list Z :=
  [5; 10; 15; 20; 25; 30; 35; 40; 45; 50; 55; 60; 65;
   70; 75; 80; 85; 90; 95; 100; 105; 110; 115; 120; 125; 130].

Section Pulses.

Variables SERVOMIN SERVOMAX : Z.

(** The third argument [moveFinger] passes to [pwm.setPWM]. *)
Definition pulse (fingerId : Z) (flex : bool) (iteration : Z) : Z :=
  let scaled := Float32.div (Float32.mul (Float32.of_int 103) (Float32.of_int iteration))
                            (Float32.of_int 130) in
  if negb (fingerId =? ring) && negb (fingerId =? pinky) then
    if flex then
      if fingerId =? thumb
      then Float32.round (Float32.add (Float32.of_int SERVOMIN) scaled)
      else Int32.add SERVOMIN iteration
    else
      if fingerId =? thumb
      then Float32.round (Float32.sub (Float32.of_int (deg SERVOMIN SERVOMAX)) scaled)
      else Int32.sub (deg1 SERVOMIN SERVOMAX) iteration
  else
    if flex then Int32.sub (startDeg SERVOMIN SERVOMAX) iteration
    else Int32.add (deg2 SERVOMIN SERVOMAX) iteration.

(** The calls of the [j] loop in step [i], given the target [a] and the
    latch [b]. *)
Definition moves (i : Z) (a b : list bool) : list event :=
  flat_map (fun j => if negb (Bool.eqb (rd a j) (rd b j))
                     then [SetPWM j 0 (pulse j (rd a j) i)] else [])
           [0; 1; 2; 3; 4; 5].

End Pulses.

(** ** Actuator commands in a trace *)

Definition is_command (e : event) : bool :=
  match e with SetPWM _ _ _ => true | _ => false end.

Definition on_channel (j : Z) (e : event) : bool :=
  match e with SetPWM num _ _ => num =? j | _ => false end.

(** The calls to [pwm.setPWM] in a trace, and the last one on channel [j]. *)
Definition commands (tr : list event) : list event := List.filter is_command tr.
Definition last_command (j : Z) (tr : list event) : option event :=
  last (List.filter (on_channel j) tr).

(** ** Statements about cycles *)

(** The sensor gate of step [i0] latches finger [k + 1], and the finger gets
    no [setPWM] from step [i0] to the end of the cycle; [g0] is the state at
    the start of step [i0], [rest] the steps that follow it. *)
Definition latch_holds (SERVOMIN SERVOMAX : Z) (w : World) (g0 : Globals)
    (i0 : Z) (rest : list Z) (k : Z) : Prop :=
  exceeds w i0 k = true ->
  rd (state1 (post (sensor_gate w i0 g0))) (k + 1) = rd (state0 g0) (k + 1) /\
  Forall (fun e => on_channel (k + 1) e = false)
         (out (for_each (i0 :: rest) (motion_step SERVOMIN SERVOMAX w) g0)).

(** The line "000000" is received in state [g]; [loop] runs in world [w1],
    in which "111111" arrives, and once more in world [w2].  The last
    [setPWM] finger [j] gets over both passes is a flex command. *)
Definition second_line_wins (SERVOMIN SERVOMAX : Z) (w1 w2 : World) (g : Globals)
    (j : Z) : Prop :=
  let r1 := loop SERVOMIN SERVOMAX w1 (recv (line "000000") g) in
  let r2 := loop SERVOMIN SERVOMAX w2 (post r1) in
  exists i, last_command j (out r1 ++ out r2) = Some (SetPWM j 0 (pulse SERVOMIN SERVOMAX j true i)).

(** What the two lanes can do to the globals: the receive lane consumes
    bytes, the main lane runs [loop] once. *)
Inductive reach (SERVOMIN SERVOMAX : Z) (g : Globals) : Globals -> Prop :=
| reach_here : reach SERVOMIN SERVOMAX g g
| reach_recv g' bytes :
    reach SERVOMIN SERVOMAX g g' -> reach SERVOMIN SERVOMAX g (recv bytes g')
| reach_loop g' w :
    reach SERVOMIN SERVOMAX g g' ->
    reach SERVOMIN SERVOMAX g (post (loop SERVOMIN SERVOMAX w g')).

(** ** The resync at the grain of stores *)

Definition is_decode (p : Z) (s : store) : bool :=
  match s with Decode i => i =? p | _ => false end.

Definition is_copy (p : Z) (s : store) : bool :=
  match s with Copy i => i =? p | _ => false end.

(** In the run [tr] of stores, entry [p] is copied into the latch at a
    point after which the receive task does not store entry [p] of the
    target. *)
Fixpoint copied_last (p : Z) (tr : list store) : bool :=
  match tr with
  | [] => false
  | s :: later =>
      (is_copy p s && negb (existsb (is_decode p) later)) || copied_last p later
  end.

(** The array stores of a run are to the six entries. *)
Definition store_ok (s : store) : Prop :=
  match s with
  | Decode i | Copy i => 0 <= i < 6
  | _ => True
  end.

(** The cycle that starts in [g] ends with the latch equal to the target,
    the receive task handling [bytes] during the resync as [sched] says. *)
Definition latch_equals_target (SERVOMIN SERVOMAX : Z) (w : World)
    (sched : list bool) (bytes : string) (g : Globals) : Prop :=
  state1 (post (animate_unlocked SERVOMIN SERVOMAX w sched bytes g)) =
  state0 (post (animate_unlocked SERVOMIN SERVOMAX w sched bytes g)).

(** ** The thumb ramp in exact arithmetic *)

(** The integer nearest to the rational [q], halves away from zero. *)
Definition nearest_integer (q : Q) : Z :=
  if Qle_bool 0 q then Qfloor (q + (1 # 2)) else Qceiling (q - (1 # 2)).

(** The integer nearest to [n / d], halves away from zero, for [d > 0]. *)
Definition nearest_quotient (n d : Z) : Z :=
  if 0 <=? n then (2 * n + d) / (2 * d) else - ((2 * (- n) + d) / (2 * d)).

(** [float(103) * float(iteration) / float(130)], as [moveFinger] computes it. *)
Definition scaled (iteration : Z) : spec_float :=
  Float32.div (Float32.mul (Float32.of_int 103) (Float32.of_int iteration))
              (Float32.of_int 130).

Definition zrange (lo : Z) (n : nat) : list Z :=
  List.map (fun k => lo + Z.of_nat k) (seq 0 n).

(** The values of the iteration argument: 0 and the 26 motion steps. *)
Definition ramp_iterations : list Z := 0 :: motion_steps.

(** For each iteration [i]: the float [scaled i], the integer nearest to
    [103 i / 130], and [floor ((130 - 206 i) / 260)]. *)
Definition ramp_table (iterations : list Z) : list (Z * spec_float * Z * Z) :=
  List.map (fun i => (i, scaled i, nearest_quotient (103 * i) 130, (130 - 206 * i) / 260))
           iterations.

(** The integer nearest to [(130 b - 103 i) / 130], from the two offsets
    [c] and [d] of the table. *)
Definition extend_expected (b i c d : Z) : Z :=
  if 103 * i <=? 130 * b then b + d else b - c.

(** [float(b) + scaled i] and [float(b) - scaled i], rounded, are the exact
    values, for every base value in [bases] and every iteration in
    [iterations]. *)
Definition flex_checked (bases iterations : list Z) : bool :=
  let table := ramp_table iterations in
  forallb (fun b => let fb := Float32.of_int b in
    forallb (fun '(i, q, c, d) => Float32.round (Float32.add fb q) =? b + c) table)
    bases.

Definition extend_checked (bases iterations : list Z) : bool :=
  let table := ramp_table iterations in
  forallb (fun b => let fb := Float32.of_int b in
    forallb (fun '(i, q, c, d) => Float32.round (Float32.sub fb q) =? extend_expected b i c d)
            table)
    bases.

(** In state [init], the line [text] is received and then [loop] runs once
    in world [w], in which nothing arrives: the command has been consumed
    and none is pending.  The flag is false afterwards. *)
Definition flag_cleared_after (SERVOMIN SERVOMAX : Z) (w : World) (text : string) : Prop :=
  silent w ->
  change (post (loop SERVOMIN SERVOMAX w (recv (line text) init))) = false.

(** ** Worlds and states used as examples *)

Definition all_extended : list bool := [false; false; false; false; false; false].
Definition all_flexed : list bool := [true; true; true; true; true; true].


Definition no_signal : Z -> Z -> Z := fun _ _ => 0.

(** Sensor row 0 (the index finger) reads 3000 in step 5; the line "000000"
    arrives during the delay of step 5. *)
Definition latch_world : World :=
  mkWorld (fun i pin => if (i =? 5) && (pin =? 26) then 3000 else 0)
          (fun i => if i =? 5 then line "000000" else EmptyString)
          EmptyString.

(** Sensor row 0 reads 3000 in step 5; nothing arrives. *)
Definition touch_world : World :=
  quiet (fun i pin => if (i =? 5) && (pin =? 26) then 3000 else 0).

(** The receive task handles the six digits of a line and its terminator
    up to the store of entry 0 (fourteen stores); then the resync copies
    entries 0 and 1; then come the other four copies and the rest of the
    decoding. *)
Definition torn_schedule : list bool :=
  [false; false; false; false; false; false; false;
   false; false; false; false; false; false; false; true; true].

(** The line "111111" arrives during the delay of step [s]. *)
Definition overwrite_at (s : Z) : World :=
  mkWorld no_signal (fun i => if i =? s then line "111111" else EmptyString) EmptyString.

(** ** Vocabulary of the further properties *)

(** The bytes of [s] up to and including the first terminator, and the
    bytes after it. *)
Fixpoint cut (s : string) : string * string :=
  match s with
  | EmptyString => (EmptyString, EmptyString)
  | String c rest =>
      if Ascii.eqb c newline then (String c EmptyString, rest)
      else (String c (fst (cut rest)), snd (cut rest))
  end.

Fixpoint join (l : list string) : string :=
  match l with
  | [] => EmptyString
  | a :: later => String.append a (join later)
  end.

(** The pins [setup] configures as inputs. *)
Definition input_pins (calls : list setup_call) : list Z :=
  flat_map (fun c => match c with PinModeInput pin => [pin] | _ => [] end) calls.

(** The sensor of finger [j] reads above its threshold in step [i]; the
    wrist, finger 0, has no sensor. *)
Definition gate_hit (w : World) (i j : Z) : bool := (1 <=? j) && exceeds w i (j - 1).

(** The steps of [l] before the first one in which [hit] holds. *)
Fixpoint steps_before (hit : Z -> bool) (l : list Z) : list Z :=
  match l with
  | [] => []
  | i :: later => if hit i then [] else i :: steps_before hit later
  end.

(** Target and latch of finger [j] differ. *)
Definition differs (g : Globals) (j : Z) : bool :=
  negb (Bool.eqb (rd (state0 g) j) (rd (state1 g) j)).

(** The milliseconds slept, and the number of sensor reads, in a trace. *)
Fixpoint total_delay (tr : list event) : Z :=
  match tr with
  | [] => 0
  | Delay ms :: later => ms + total_delay later
  | _ :: later => total_delay later
  end.

Definition is_read (e : event) : bool :=
  match e with AnalogRead _ => true | _ => false end.

(** The sign of the ramp of the fingers other than the thumb: the pulse
    grows with the iteration when flexing wrist, index and middle and when
    extending ring and pinky. *)
Definition rising (fingerId : Z) (flex : bool) : bool :=
  xorb flex ((fingerId =? ring) || (fingerId =? pinky)).

(** * Part III: proofs *)

(** ** The monad and the loops *)

Lemma bind_run {A B} (m : Lane A) (k : A -> Lane B) g :
  (x <- m ;; k x) g =
  (val (k (val (m g)) (post (m g))), post (k (val (m g)) (post (m g))),
   out (m g) ++ out (k (val (m g)) (post (m g)))).
Proof. reflexivity. Qed.

Lemma val_triple {A} (a : A) g t : val (a, g, t) = a.
Proof. reflexivity. Qed.

Lemma post_triple {A} (a : A) g t : post (a, g, t) = g.
Proof. reflexivity. Qed.

Lemma out_triple {A} (a : A) g t : out (a, g, t) = t.
Proof. reflexivity. Qed.

Lemma post_bind {A B} (m : Lane A) (k : A -> Lane B) g :
  post ((x <- m ;; k x) g) = post (k (val (m g)) (post (m g))).
Proof. reflexivity. Qed.

Lemma out_bind {A B} (m : Lane A) (k : A -> Lane B) g :
  out ((x <- m ;; k x) g) = out (m g) ++ out (k (val (m g)) (post (m g))).
Proof. reflexivity. Qed.

(** The counter of [for_fuel] is irrelevant once it covers [hi - i]. *)
Lemma for_fuel_enough stride hi body :
  0 < stride ->
  forall f1 f2 i,
    (Z.to_nat (hi - i) <= f1)%nat -> (Z.to_nat (hi - i) <= f2)%nat ->
    for_fuel f1 i hi stride body = for_fuel f2 i hi stride body.
Proof.
  intros Hs. induction f1 as [|f1 IH]; intros f2 i H1 H2.
  - destruct f2 as [|f2]; [reflexivity|]. simpl.
    destruct (Z.ltb_spec i hi); [lia | reflexivity].
  - destruct f2 as [|f2]; simpl.
    + destruct (Z.ltb_spec i hi); [lia | reflexivity].
    + destruct (Z.ltb_spec i hi); [|reflexivity].
      rewrite (IH f2 (i + stride)) by lia. reflexivity.
Qed.

(** [for_lt] satisfies the equation of the C loop: it stops only when the
    test [i < hi] fails. *)
Lemma for_lt_unfold lo hi stride body :
  0 < stride ->
  for_lt lo hi stride body =
  if lo <? hi then (body lo ;; for_lt (lo + stride) hi stride body) else ret tt.
Proof.
  intros Hs. unfold for_lt.
  destruct (Z.ltb_spec lo hi) as [Hlt|Hge].
  - destruct (Z.to_nat (hi - lo)) as [|n] eqn:E; [lia|].
    simpl. destruct (Z.ltb_spec lo hi); [|lia].
    rewrite (for_fuel_enough stride hi body Hs n (Z.to_nat (hi - (lo + stride)))) by lia.
    reflexivity.
  - replace (Z.to_nat (hi - lo)) with O by lia. reflexivity.
Qed.

Lemma for_each_app l1 l2 body g :
  for_each (l1 ++ l2) body g =
  (for_each l1 body ;; for_each l2 body) g.
Proof.
  revert g. induction l1 as [|i l1 IH]; intros g.
  - simpl. rewrite bind_run. unfold ret, val, post, out. simpl.
    destruct (for_each l2 body g) as [[[] g'] t]. reflexivity.
  - simpl. rewrite !bind_run. simpl. rewrite IH. rewrite !bind_run. simpl.
    unfold val, post, out. simpl. rewrite app_assoc. reflexivity.
Qed.

Lemma post_for_each_app l1 l2 body g :
  post (for_each (l1 ++ l2) body g) = post (for_each l2 body (post (for_each l1 body g))).
Proof. rewrite for_each_app, post_bind. reflexivity. Qed.

Lemma out_for_each_app l1 l2 body g :
  out (for_each (l1 ++ l2) body g) =
  out (for_each l1 body g) ++ out (for_each l2 body (post (for_each l1 body g))).
Proof. rewrite for_each_app, out_bind. reflexivity. Qed.

Lemma post_for_each_cons i l body g :
  post (for_each (i :: l) body g) = post (for_each l body (post (body i g))).
Proof. reflexivity. Qed.

Lemma out_for_each_cons i l body g :
  out (for_each (i :: l) body g) = out (body i g) ++ out (for_each l body (post (body i g))).
Proof. reflexivity. Qed.

Lemma post_for_each_one i body g : post (for_each [i] body g) = post (body i g).
Proof. reflexivity. Qed.

Lemma out_for_each_one i body g : out (for_each [i] body g) = out (body i g).
Proof. cbn [for_each]. rewrite out_bind. apply app_nil_r. Qed.

(** An invariant of the body is an invariant of the loop over a list, and
    every call it makes satisfies what the calls of the body satisfy. *)
Lemma for_each_inv (P : Globals -> Prop) (E : event -> Prop) l body :
  (forall i g, In i l -> P g -> P (post (body i g)) /\ Forall E (out (body i g))) ->
  forall g, P g -> P (post (for_each l body g)) /\ Forall E (out (for_each l body g)).
Proof.
  induction l as [|i l IH]; intros Hb g Hg.
  - simpl. split; [exact Hg | constructor].
  - cbn [for_each]. rewrite post_bind, out_bind.
    destruct (Hb i g (or_introl eq_refl) Hg) as [H1 H2].
    destruct (IH (fun j g' Hj => Hb j g' (or_intror Hj)) _ H1) as [H3 H4].
    split; [exact H3 | apply Forall_app; split; assumption].
Qed.

Lemma for_lt_motion body g :
  for_lt 5 135 5 body g = for_each motion_steps body g.
Proof. reflexivity. Qed.

Lemma for_lt_five body g : for_lt 0 5 1 body g = for_each [0; 1; 2; 3; 4] body g.
Proof. reflexivity. Qed.

Lemma for_lt_six body g : for_lt 0 6 1 body g = for_each [0; 1; 2; 3; 4; 5] body g.
Proof. reflexivity. Qed.

(** ** The receive lane decoded *)

Lemma get_past_end s : forall i, (String.length s <= i)%nat -> String.get i s = None.
Proof.
  induction s as [|c s IH]; intros i Hi; [destruct i; reflexivity|].
  destruct i as [|i]; simpl in *; [lia|]. apply IH. lia.
Qed.

Lemma substring_single s : forall i,
  (i < String.length s)%nat ->
  String.substring i 1 s =
  match String.get i s with Some c => String c EmptyString | None => EmptyString end.
Proof.
  induction s as [|c s IH]; intros i Hi; simpl in Hi; [lia|].
  destruct i as [|i]; simpl.
  - destruct s; reflexivity.
  - apply IH. lia.
Qed.

Lemma substring_one i s :
  WString.substring i (S i) s =
  match String.get i s with Some c => String c EmptyString | None => EmptyString end.
Proof.
  unfold WString.substring.
  replace (Nat.min i (S i)) with i by lia.
  replace (Nat.max i (S i)) with (S i) by lia.
  destruct (Nat.leb_spec (String.length s) i) as [Hle|Hlt].
  - rewrite get_past_end by exact Hle. reflexivity.
  - replace (Nat.min (S i) (String.length s) - i)%nat with 1%nat by lia.
    apply substring_single. exact Hlt.
Qed.

Lemma toInt_char c :
  bool_of_long (WString.toInt (String c EmptyString)) =
  WString.isdigit c && negb (Ascii.eqb c "0").
Proof. destruct c as [[] [] [] [] [] [] [] []]; reflexivity. Qed.

Lemma decode_at_spec s i : decode_at s i = flag_of (String.get i s).
Proof.
  unfold decode_at. rewrite substring_one.
  destruct (String.get i s) as [c|]; [apply toInt_char | reflexivity].
Qed.

Lemma on_newline g :
  post (on_byte newline g) =
  mkGlobals (decoded (state g) (state0 g)) (state1 g) true newline EmptyString (hall g).
Proof. reflexivity. Qed.

Lemma on_other c g :
  Ascii.eqb c newline = false ->
  post (on_byte c g) =
  mkGlobals (state0 g) (state1 g) (change g) c (WString.concat (state g) c) (hall g).
Proof.
  intros H. cbv [on_byte bind modify gets val post out fst snd set_sData sData].
  rewrite H. reflexivity.
Qed.

Lemma recv_app a b g : recv (String.append a b) g = recv b (recv a g).
Proof. revert g. induction a as [|c a IH]; intros g; simpl; [reflexivity | apply IH]. Qed.

Lemma append_assoc (a b c : string) :
  String.append (String.append a b) c = String.append a (String.append b c).
Proof. induction a as [|x a IH]; simpl; [reflexivity | rewrite IH; reflexivity]. Qed.

(** Bytes other than the terminator only grow the buffer. *)
Lemma recv_newline_free text : forall g,
  newline_free text = true ->
  state0 (recv text g) = state0 g /\ state1 (recv text g) = state1 g /\
  change (recv text g) = change g /\ hall (recv text g) = hall g /\
  state (recv text g) = String.append (state g) text.
Proof.
  induction text as [|c text IH]; intros g H; simpl in *.
  - repeat split. induction (state g) as [|x s IHs]; simpl; [reflexivity | rewrite <- IHs; reflexivity].
  - apply andb_prop in H. destruct H as [Hc Ht]. apply negb_true_iff in Hc.
    destruct (IH (post (on_byte c g)) Ht) as (H0 & H1 & H2 & H3 & H4).
    rewrite (on_other c g Hc) in *. simpl in *.
    repeat split; try assumption.
    rewrite H4. unfold WString.concat. rewrite append_assoc. reflexivity.
Qed.

(** A complete line: the buffer is decoded, emptied, and [change] raised. *)
Lemma recv_line text g :
  newline_free text = true ->
  let g' := recv (line text) g in
  state0 g' = decoded (String.append (state g) text) (state0 g) /\
  state1 g' = state1 g /\ change g' = true /\ hall g' = hall g /\
  state g' = EmptyString.
Proof.
  intros H. unfold line. cbv zeta. rewrite recv_app. cbn [recv]. rewrite on_newline.
  destruct (recv_newline_free text g H) as (H0 & H1 & H2 & H3 & H4).
  simpl. rewrite H0, H1, H3, H4. repeat split.
Qed.

Lemma decoded_lookup s a i :
  length a = 6%nat -> 0 <= i < 6 ->
  rd (decoded s a) i = flag_of (String.get (Z.to_nat i) s).
Proof.
  intros Ha Hi. rewrite <- decode_at_spec.
  do 7 (destruct a as [|? a]; try discriminate Ha).
  assert (i = 0 \/ i = 1 \/ i = 2 \/ i = 3 \/ i = 4 \/ i = 5) as Hc by lia.
  destruct Hc as [->|[->|[->|[->|[->| ->]]]]]; reflexivity.
Qed.

Lemma on_byte_lengths c g :
  length (state0 (post (on_byte c g))) = length (state0 g) /\
  state1 (post (on_byte c g)) = state1 g /\
  hall (post (on_byte c g)) = hall g.
Proof.
  destruct (Ascii.eqb c newline) eqn:E.
  - apply Ascii.eqb_eq in E. subst c. rewrite on_newline. simpl.
    unfold decoded, wr. rewrite !length_insert. repeat split.
  - rewrite (on_other c g E). simpl. repeat split.
Qed.

(** The receive lane never writes [state1] or [hall], and keeps the size of
    [state0]. *)
Lemma recv_frame bytes : forall g,
  length (state0 (recv bytes g)) = length (state0 g) /\
  state1 (recv bytes g) = state1 g /\ hall (recv bytes g) = hall g.
Proof.
  induction bytes as [|c bytes IH]; intros g; simpl; [repeat split|].
  destruct (IH (post (on_byte c g))) as (H0 & H1 & H2).
  destruct (on_byte_lengths c g) as (K0 & K1 & K2).
  rewrite H0, H1, H2, K0, K1, K2. repeat split.
Qed.


Lemma decoded_full s a :
  length a = 6%nat ->
  decoded s a = [decode_at s 0; decode_at s 1; decode_at s 2;
                 decode_at s 3; decode_at s 4; decode_at s 5].
Proof.
  intros Ha. do 7 (destruct a as [|? a]; try discriminate Ha). reflexivity.
Qed.


(** The well-formed states contain [init] and are closed under the receive lane. *)
Lemma wf_init : wf init.
Proof. repeat split. exists 0, 0, 0, 0, 0. reflexivity. Qed.

Lemma wf_recv bytes g : wf g -> wf (recv bytes g).
Proof.
  intros (H0 & H1 & H2). destruct (recv_frame bytes g) as (K0 & K1 & K2).
  unfold wf. rewrite K0, K1, K2. repeat split; assumption.
Qed.


(** ** The claims about the receive lane *)

Lemma all_digits_get s : forall p c,
  all_digits s = true -> String.get p s = Some c -> WString.isdigit c = true.
Proof.
  induction s as [|x s IH]; intros p c H Hget; [destruct p; discriminate|].
  cbn [all_digits] in H. apply andb_prop in H. destruct H as [Hx Hs].
  destruct p as [|p]; cbn [String.get] in Hget.
  - congruence.
  - exact (IH p c Hs Hget).
Qed.

Lemma digit_not_newline c : WString.isdigit c = true -> Ascii.eqb c newline = false.
Proof. destruct c as [[] [] [] [] [] [] [] []]; intros H; try reflexivity; discriminate H. Qed.

Lemma all_digits_newline_free s : all_digits s = true -> newline_free s = true.
Proof.
  induction s as [|x s IH]; intros H; [reflexivity|].
  cbn [all_digits] in H. apply andb_prop in H. destruct H as [Hx Hs].
  cbn [newline_free]. rewrite (digit_not_newline x Hx), (IH Hs). reflexivity.
Qed.

Lemma get_append_l (a b : string) : forall p,
  (p < String.length a)%nat -> String.get p (String.append a b) = String.get p a.
Proof.
  induction a as [|x a IH]; intros p Hp; cbn [String.length] in Hp; [lia|].
  destruct p as [|p]; cbn [String.append String.get]; [reflexivity|].
  apply IH. lia.
Qed.

Lemma newline_free_append (a b : string) :
  newline_free a = true -> newline_free b = true -> newline_free (String.append a b) = true.
Proof.
  intros Ha Hb. induction a as [|x a IH]; [exact Hb|].
  cbn [newline_free String.append] in *. apply andb_prop in Ha. destruct Ha as [Hx Ha].
  rewrite Hx, (IH Ha). reflexivity.
Qed.

(** What a complete line leaves in [state0], position by position. *)
Lemma line_decoded text g (p : Z) :
  wf g -> state g = EmptyString -> newline_free text = true -> 0 <= p < 6 ->
  rd (state0 (recv (line text) g)) p = flag_of (String.get (Z.to_nat p) text).
Proof.
  intros Hg Hbuf Hnl Hp. destruct (recv_line text g Hnl) as (A0 & _).
  rewrite A0, Hbuf. cbn [String.append]. apply decoded_lookup; [apply Hg | exact Hp].
Qed.

(** C1 (amended).  For a line of six digits, digit [p] is stored at index
    [p] of [state0]: '0' as false, any other digit as true.  With the finger
    ids of lines 20-25 the digits therefore control, in this order, wrist,
    index, middle, ring, thumb, pinky: the thumb is controlled by the fifth
    digit and the second digit controls the index finger. *)
Theorem digits_follow_finger_ids (g : Globals) (text : string) :
  wf g -> state g = EmptyString ->
  String.length text = 6%nat -> all_digits text = true ->
  follows_order [wrist; index; middle; ring; thumb; pinky] text g /\
  state0 (recv (line text) g) =
  List.map (fun p => flag_of (String.get p text)) [0; 1; 2; 3; 4; 5]%nat.
Proof.
  intros Hg Hbuf Hlen Hdig. pose proof (all_digits_newline_free text Hdig) as Hnl. split.
  - intros p finger c Hord Hget.
    assert (0 <= finger < 6 /\ Z.to_nat finger = p) as [Hf Hp].
    { do 6 (destruct p as [|p]; [inversion Hord; subst; split; [cbv; intuition discriminate | reflexivity]|]).
      destruct p; discriminate Hord. }
    rewrite (line_decoded text g finger Hg Hbuf Hnl Hf), Hp, Hget. cbn [flag_of].
    rewrite (all_digits_get text p c Hdig Hget). reflexivity.
  - destruct (recv_line text g Hnl) as (A0 & _).
    rewrite A0, Hbuf. cbn [String.append]. rewrite (decoded_full _ _ (proj1 Hg)).
    cbn [List.map]. rewrite !decode_at_spec. reflexivity.
Qed.

(** C7. In every received line each of the six positions is decoded on its
    own: a missing character and a character that is not a digit give
    false, a digit gives its own value ('0' false, '1'..'9' true) whatever
    the other positions hold; the buffer is emptied and the flag raised as
    for any other line. *)
Theorem tolerant_decode (g : Globals) (text : string) (p : Z) :
  wf g -> state g = EmptyString -> newline_free text = true -> 0 <= p < 6 ->
  (String.get (Z.to_nat p) text = None -> rd (state0 (recv (line text) g)) p = false) /\
  (forall c, String.get (Z.to_nat p) text = Some c -> WString.isdigit c = false ->
             rd (state0 (recv (line text) g)) p = false) /\
  (forall c, String.get (Z.to_nat p) text = Some c -> WString.isdigit c = true ->
             rd (state0 (recv (line text) g)) p = negb (Ascii.eqb c "0")) /\
  length (state0 (recv (line text) g)) = 6%nat /\
  state (recv (line text) g) = EmptyString /\ change (recv (line text) g) = true.
Proof.
  intros Hg Hbuf Hnl Hp. rewrite (line_decoded text g p Hg Hbuf Hnl Hp).
  destruct (recv_line text g Hnl) as (_ & _ & A2 & _ & A4).
  split; [intros ->; reflexivity|].
  split; [intros c -> Hc; cbn [flag_of]; rewrite Hc; reflexivity|].
  split; [intros c -> Hc; cbn [flag_of]; rewrite Hc; reflexivity|].
  split; [apply (wf_recv (line text) g Hg) | split; assumption].
Qed.

(** C10. Of a line longer than six characters only the first six count:
    whatever follows them before the terminator, [state0] is what the first
    six characters alone would give, and the buffer is empty afterwards. *)
Theorem extra_characters_ignored (g : Globals) (text extra : string) :
  wf g -> state g = EmptyString ->
  String.length text = 6%nat ->
  newline_free text = true -> newline_free extra = true ->
  state0 (recv (line (String.append text extra)) g) = state0 (recv (line text) g) /\
  state (recv (line (String.append text extra)) g) = EmptyString.
Proof.
  intros Hg Hbuf Hlen Hnl Hnl'.
  pose proof (newline_free_append text extra Hnl Hnl') as Hnl2.
  destruct (recv_line (String.append text extra) g Hnl2) as (A0 & _ & _ & _ & A4).
  destruct (recv_line text g Hnl) as (B0 & _).
  split; [|exact A4].
  rewrite A0, B0, Hbuf. cbn [String.append]. rewrite !(decoded_full _ _ (proj1 Hg)).
  rewrite !decode_at_spec, !get_append_l by lia. reflexivity.
Qed.
(** ** The main lane, step by step *)

Lemma gate_pass_run w i k g :
  gate_pass w i k g = (tt, gate_k w i k g, [AnalogRead (rd2 (hall g) k 0)]).
Proof.
  unfold gate_pass, gate_k.
  cbv [bind gets modify analogRead emit ret val post out fst snd app].
  destruct (_ >? _); reflexivity.
Qed.

(** One pass of the gate on a well-formed state: the reading of row [k] is
    stored, and the latch of finger [k + 1] takes the value of its target
    when the reading exceeds the threshold. *)
Lemma gate_k_spec w i k g :
  wf g -> 0 <= k < 5 ->
  rd2 (hall g) k 0 = pin_of k /\
  gate_k w i k g =
  mkGlobals (state0 g)
            (if exceeds w i k then wr (state1 g) (k + 1) (rd (state0 g) (k + 1))
             else state1 g)
            (change g) (sData g) (state g)
            (wr2 (hall g) k 1 (adc w i (pin_of k))).
Proof.
  destruct g as [a b c d s h]. intros (_ & _ & r0 & r1 & r2 & r3 & r4 & Hh) Hk.
  simpl in Hh. subst h.
  assert (k = 0 \/ k = 1 \/ k = 2 \/ k = 3 \/ k = 4) as Hc by lia.
  destruct Hc as [->|[->|[->|[->| ->]]]]; (split; [reflexivity|]);
    unfold gate_k; cbv zeta;
    match goal with
    | |- (if ?c then _ else _) = mkGlobals _ (if ?e then _ else _) _ _ _ _ =>
        change c with e; destruct e; reflexivity
    end.
Qed.

Lemma sensor_gate_run w i g :
  wf g -> sensor_gate w i g = (tt, gated w i g, reads).
Proof.
  intros Hg. unfold sensor_gate. rewrite for_lt_five. cbn [for_each].
  destruct g as [a b c d s h]. destruct Hg as (Ha & Hb & r0 & r1 & r2 & r3 & r4 & Hh).
  simpl in Ha, Hb, Hh. subst h.
  do 7 (destruct a as [|? a]; try discriminate Ha).
  do 7 (destruct b as [|? b]; try discriminate Hb).
  assert (forall b' h', length b' = 6%nat -> calibrated h' ->
            wf (mkGlobals [b0; b1; b2; b3; b4; b5] b' c d s h')) as Hwf.
  { intros b' h' Hb' Hh'. repeat split; assumption. }
  repeat (rewrite bind_run, gate_pass_run; cbv [val post out fst snd];
          match goal with
          | |- context [gate_k w i ?k ?g] =>
              let H := fresh in
              let P := fresh in
              assert (wf g) as H
                by (apply Hwf;
                    [repeat match goal with |- context [if ?c then _ else _] => destruct c end;
                       reflexivity
                    | unfold calibrated; cbv [wr2 wr rd]; simpl; eauto 10]);
              destruct (gate_k_spec w i k g H ltac:(lia)) as [P ->]; clear H;
              cbv [hall state0 state1 change sData state] in P |- *; rewrite P; clear P
          end).
  unfold gated, latched, sampled, reads. cbn [fold_left state0 state1 change sData state].
  reflexivity.
Qed.

Lemma latched_length ex a b : length (latched ex a b) = length b.
Proof.
  unfold latched. simpl. unfold wr.
  repeat match goal with |- context [if ?c then _ else _] => destruct c end;
    rewrite ?length_insert; reflexivity.
Qed.

(** Finger [j] is latched exactly when it is a sensing finger ([1 <= j]) whose
    sensor, row [j - 1], reads above threshold; its latch then takes the
    value of its target. *)
Lemma latched_lookup ex a b j :
  length a = 6%nat -> length b = 6%nat -> 0 <= j < 6 ->
  rd (latched ex a b) j = if (1 <=? j) && ex (j - 1) then rd a j else rd b j.
Proof.
  intros Ha Hb Hj.
  do 7 (destruct a as [|? a]; try discriminate Ha).
  do 7 (destruct b as [|? b]; try discriminate Hb).
  assert (j = 0 \/ j = 1 \/ j = 2 \/ j = 3 \/ j = 4 \/ j = 5) as Hc by lia.
  unfold latched. cbn [fold_left].
  destruct Hc as [->|[->|[->|[->|[->| ->]]]]];
    change (0 - 1) with (-1); change (1 - 1) with 0; change (2 - 1) with 1;
    change (3 - 1) with 2; change (4 - 1) with 3; change (5 - 1) with 4;
    destruct (ex 0), (ex 1), (ex 2), (ex 3), (ex 4); reflexivity.
Qed.

Lemma latched_same ex a : length a = 6%nat -> latched ex a a = a.
Proof.
  intros Ha. do 7 (destruct a as [|? a]; try discriminate Ha).
  unfold latched. cbn [fold_left].
  destruct (ex 0), (ex 1), (ex 2), (ex 3), (ex 4); reflexivity.
Qed.

Lemma latched_none ex a b :
  (forall k, 0 <= k < 5 -> ex k = false) -> latched ex a b = b.
Proof.
  intros H. unfold latched. cbn [fold_left].
  rewrite (H 0), (H 1), (H 2), (H 3), (H 4) by lia. reflexivity.
Qed.

Lemma wf_gated w i g : wf g -> wf (gated w i g).
Proof.
  intros (H0 & H1 & H2). unfold wf, gated. simpl. rewrite latched_length.
  repeat split; try assumption. unfold calibrated, sampled. eauto 10.
Qed.

Lemma for_each_pure l body (f : Z -> Globals -> list event) :
  (forall j g, body j g = (tt, g, f j g)) ->
  forall g, for_each l body g = (tt, g, flat_map (fun j => f j g) l).
Proof.
  intros Hb. induction l as [|j l IH]; intros g; [reflexivity|].
  cbn [for_each flat_map]. rewrite bind_run, Hb. cbv [val post out fst snd].
  rewrite IH. reflexivity.
Qed.

Lemma resync_run g :
  length (state0 g) = 6%nat -> length (state1 g) = 6%nat ->
  resync g = (tt, set_state1 (state0 g) g, []).
Proof.
  destruct g as [a b c d s h]. simpl. intros Ha Hb.
  do 7 (destruct a as [|? a]; try discriminate Ha).
  do 7 (destruct b as [|? b]; try discriminate Hb).
  reflexivity.
Qed.

(** ** The stores of the two tasks *)

Lemma stores_app a b : forall g, stores (a ++ b) g = stores b (stores a g).
Proof. induction a as [|s a IH]; intros g; [reflexivity | apply IH]. Qed.

(** Run without interruption, the stores of a byte are [on_byte], and those
    of the resync are [resync]. *)
Lemma byte_stores_on_byte c g : stores (byte_stores c) g = post (on_byte c g).
Proof.
  unfold byte_stores. destruct (Ascii.eqb c newline) eqn:E.
  - apply Ascii.eqb_eq in E. subst c. rewrite on_newline. reflexivity.
  - rewrite (on_other c g E). reflexivity.
Qed.

Lemma recv_stores_recv bytes : forall g, stores (recv_stores bytes) g = recv bytes g.
Proof.
  induction bytes as [|c rest IH]; intros g; [reflexivity|].
  cbn [recv_stores recv]. rewrite stores_app, byte_stores_on_byte. apply IH.
Qed.

Lemma resync_stores_resync g :
  length (state0 g) = 6%nat -> length (state1 g) = 6%nat ->
  stores resync_stores g = post (resync g).
Proof.
  intros Ha Hb. rewrite (resync_run g Ha Hb). destruct g as [a b c d s h]. simpl in Ha, Hb.
  do 7 (destruct a as [|? a]; try discriminate Ha).
  do 7 (destruct b as [|? b]; try discriminate Hb).
  reflexivity.
Qed.

Lemma interleave_idle sched : forall main, interleave sched main [] = main.
Proof.
  induction sched as [|b sched IH]; intros main; cbn [interleave].
  - apply app_nil_r.
  - destruct b; [|apply IH]. destruct main as [|m main]; [apply IH|]. rewrite IH. reflexivity.
Qed.

Lemma interleave_Forall (P : store -> Prop) sched : forall main rx,
  Forall P main -> Forall P rx -> Forall P (interleave sched main rx).
Proof.
  induction sched as [|b sched IH]; intros main rx Hm Hr; cbn [interleave].
  - apply Forall_app. split; assumption.
  - destruct b.
    + destruct Hm as [|m main Hm Hm']; [apply IH; [constructor | exact Hr]|].
      constructor; [exact Hm | apply IH; assumption].
    + destruct Hr as [|r rx Hr Hr']; [apply IH; [exact Hm | constructor]|].
      constructor; [exact Hr | apply IH; assumption].
Qed.

Lemma interleave_In_main sched : forall main rx x,
  In x main -> In x (interleave sched main rx).
Proof.
  induction sched as [|b sched IH]; intros main rx x Hx; cbn [interleave].
  - apply in_or_app. left. exact Hx.
  - destruct b.
    + destruct main as [|m main]; [destruct Hx|].
      destruct Hx as [->|Hx]; [left; reflexivity | right; apply IH, Hx].
    + destruct rx as [|r rx]; [apply IH, Hx | right; apply IH, Hx].
Qed.

Lemma recv_stores_ok bytes : Forall store_ok (recv_stores bytes).
Proof.
  induction bytes as [|c rest IH]; [constructor|].
  cbn [recv_stores]. apply Forall_app. split; [|exact IH].
  unfold byte_stores. destruct (Ascii.eqb c newline); repeat constructor; cbn; lia.
Qed.

Lemma resync_stores_ok : Forall store_ok resync_stores.
Proof. repeat constructor; cbn; lia. Qed.

(** A run of the receive task that completes no line stores no entry of
    the target. *)
Lemma recv_stores_no_decode p bytes :
  newline_free bytes = true -> Forall (fun s => is_decode p s = false) (recv_stores bytes).
Proof.
  induction bytes as [|c rest IH]; intros H; [constructor|].
  cbn [newline_free] in H. apply andb_prop in H. destruct H as [Hc Hr].
  apply negb_true_iff in Hc. cbn [recv_stores]. unfold byte_stores. rewrite Hc.
  repeat constructor. exact (IH Hr).
Qed.

Lemma no_decode_existsb p tr :
  Forall (fun s => is_decode p s = false) tr -> existsb (is_decode p) tr = false.
Proof.
  intros H. induction H as [|s tr Hs _ IH]; [reflexivity|].
  cbn [existsb]. rewrite Hs, IH. reflexivity.
Qed.

Lemma rd_wr_same (a : list bool) p v :
  0 <= p -> (Z.to_nat p < length a)%nat -> rd (wr a p v) p = v.
Proof. intros _ H. unfold rd, wr. apply list_lookup_total_insert_eq. exact H. Qed.

Lemma rd_wr_other (a : list bool) i p v :
  0 <= i -> 0 <= p -> i <> p -> rd (wr a i v) p = rd a p.
Proof. intros Hi Hp H. unfold rd, wr. apply list_lookup_total_insert_ne. lia. Qed.

Lemma store_lengths s g :
  length (state0 (store_step s g)) = length (state0 g) /\
  length (state1 (store_step s g)) = length (state1 g).
Proof. destruct s; cbn; unfold wr; rewrite ?length_insert; split; reflexivity. Qed.

Lemma stores_lengths tr : forall g,
  length (state0 (stores tr g)) = length (state0 g) /\
  length (state1 (stores tr g)) = length (state1 g).
Proof.
  induction tr as [|s tr IH]; intros g; [split; reflexivity|].
  cbn [stores]. destruct (IH (store_step s g)) as [H0 H1].
  destruct (store_lengths s g) as [K0 K1]. split; congruence.
Qed.

(** Once entry [p] has been copied it stays equal to the target as long as
    the receive task does not store that entry. *)
Lemma copy_kept p later : forall g,
  0 <= p < 6 -> length (state0 g) = 6%nat -> length (state1 g) = 6%nat ->
  Forall store_ok later -> existsb (is_decode p) later = false ->
  rd (state1 g) p = rd (state0 g) p ->
  rd (state1 (stores later g)) p = rd (state0 (stores later g)) p.
Proof.
  induction later as [|s later IH]; intros g Hp H0 H1 Hok Hno Heq; [exact Heq|].
  cbn [stores]. cbn [existsb] in Hno. apply orb_false_elim in Hno. destruct Hno as [Hs Hno].
  inversion Hok as [|? ? Hs_ok Hok']; subst.
  destruct (store_lengths s g) as [K0 K1].
  apply IH; [exact Hp | congruence | congruence | exact Hok' | exact Hno |].
  destruct s as [c|i| | | |i]; cbn [store_step set_sData set_state0 set_state set_change
                                   set_state1 state0 state1]; try exact Heq.
  - cbn [is_decode] in Hs. apply Z.eqb_neq in Hs. cbn [store_ok] in Hs_ok.
    rewrite rd_wr_other by lia. exact Heq.
  - cbn [store_ok] in Hs_ok. destruct (Z.eq_dec i p) as [->|Hne].
    + apply rd_wr_same; lia.
    + rewrite rd_wr_other by lia. exact Heq.
Qed.

Lemma copied_last_sound p tr : forall g,
  0 <= p < 6 -> length (state0 g) = 6%nat -> length (state1 g) = 6%nat ->
  Forall store_ok tr -> copied_last p tr = true ->
  rd (state1 (stores tr g)) p = rd (state0 (stores tr g)) p.
Proof.
  induction tr as [|s tr IH]; intros g Hp H0 H1 Hok Hc; [discriminate Hc|].
  cbn [copied_last] in Hc. inversion Hok as [|? ? Hs_ok Hok']; subst.
  destruct (store_lengths s g) as [K0 K1]. cbn [stores].
  apply orb_prop in Hc. destruct Hc as [Hc|Hc].
  - apply andb_prop in Hc. destruct Hc as [Hs Hno]. apply negb_true_iff in Hno.
    apply copy_kept; [exact Hp | congruence | congruence | exact Hok' | exact Hno |].
    destruct s; try discriminate Hs. cbn [is_copy] in Hs. apply Z.eqb_eq in Hs. subst.
    cbn [store_step set_state1 state0 state1]. apply rd_wr_same; lia.
  - apply IH; [exact Hp | congruence | congruence | exact Hok' | exact Hc].
Qed.

Lemma copied_last_intro p tr :
  existsb (is_decode p) tr = false -> In (Copy p) tr -> copied_last p tr = true.
Proof.
  induction tr as [|s tr IH]; intros Hno Hin; [destruct Hin|].
  cbn [existsb] in Hno. apply orb_false_elim in Hno. destruct Hno as [_ Hno].
  cbn [copied_last]. destruct Hin as [->|Hin].
  - cbn [is_copy]. rewrite Z.eqb_refl, Hno. reflexivity.
  - rewrite (IH Hno Hin). apply orb_true_r.
Qed.

Lemma six_ext (a b : list bool) :
  length a = 6%nat -> length b = 6%nat ->
  (forall p, 0 <= p < 6 -> rd a p = rd b p) -> a = b.
Proof.
  intros Ha Hb H.
  do 7 (destruct a as [|? a]; try discriminate Ha).
  do 7 (destruct b as [|? b]; try discriminate Hb).
  pose proof (H 0 ltac:(lia)) as E0. pose proof (H 1 ltac:(lia)) as E1.
  pose proof (H 2 ltac:(lia)) as E2. pose proof (H 3 ltac:(lia)) as E3.
  pose proof (H 4 ltac:(lia)) as E4. pose proof (H 5 ltac:(lia)) as E5.
  cbv in E0, E1, E2, E3, E4, E5. congruence.
Qed.

Section Cycle.

Variables SERVOMIN SERVOMAX : Z.

Lemma moveFinger_run j flex i g :
  moveFinger SERVOMIN SERVOMAX j flex i g =
  (tt, g, [SetPWM j 0 (pulse SERVOMIN SERVOMAX j flex i)]).
Proof.
  unfold moveFinger, pulse.
  destruct (negb (j =? ring) && negb (j =? pinky)), flex, (j =? thumb); reflexivity.
Qed.

Lemma move_pass_run i j g :
  move_pass SERVOMIN SERVOMAX i j g =
  (tt, g, if negb (Bool.eqb (rd (state0 g) j) (rd (state1 g) j))
          then [SetPWM j 0 (pulse SERVOMIN SERVOMAX j (rd (state0 g) j) i)] else []).
Proof.
  unfold move_pass. rewrite !bind_run. cbv [gets val post out fst snd].
  destruct (negb (Bool.eqb (rd (state0 g) j) (rd (state1 g) j))).
  - rewrite bind_run. cbv [val post out fst snd]. rewrite moveFinger_run. reflexivity.
  - reflexivity.
Qed.

Lemma move_fingers_run i g :
  move_fingers SERVOMIN SERVOMAX i g =
  (tt, g, moves SERVOMIN SERVOMAX i (state0 g) (state1 g)).
Proof.
  unfold move_fingers. rewrite for_lt_six.
  exact (for_each_pure [0; 1; 2; 3; 4; 5] (move_pass SERVOMIN SERVOMAX i)
           (fun j g => if negb (Bool.eqb (rd (state0 g) j) (rd (state1 g) j))
                       then [SetPWM j 0 (pulse SERVOMIN SERVOMAX j (rd (state0 g) j) i)]
                       else [])
           (move_pass_run i) g).
Qed.

(** One motion step: the five reads, the moves decided on the gated latch,
    the pacing delay, during which the receive lane runs. *)
Lemma motion_step_run w i g :
  wf g ->
  motion_step SERVOMIN SERVOMAX w i g =
  (tt, recv (rx17 w i) (gated w i g),
   reads ++ moves SERVOMIN SERVOMAX i (state0 g) (latched (exceeds w i) (state0 g) (state1 g))
         ++ [Delay 17]).
Proof.
  intros Hg. unfold motion_step.
  rewrite bind_run, (sensor_gate_run w i g Hg). cbv [val post out fst snd].
  rewrite bind_run, move_fingers_run. cbv [val post out fst snd].
  reflexivity.
Qed.

Lemma wf_motion_step w i g : wf g -> wf (post (motion_step SERVOMIN SERVOMAX w i g)).
Proof.
  intros Hg. rewrite (motion_step_run w i g Hg). apply wf_recv, wf_gated, Hg.
Qed.

Lemma wf_steps w l g : wf g -> wf (post (for_each l (motion_step SERVOMIN SERVOMAX w) g)).
Proof.
  intros Hg.
  apply (for_each_inv wf (fun _ => True) l (motion_step SERVOMIN SERVOMAX w)); [|exact Hg].
  intros i g' _ Hg'. split; [apply wf_motion_step, Hg'|].
  apply Forall_forall. intros; exact I.
Qed.

Lemma delay_run ms incoming g : delay ms incoming g = (tt, recv incoming g, [Delay ms]).
Proof. reflexivity. Qed.

Lemma animate_run w g :
  wf g ->
  animate SERVOMIN SERVOMAX w g =
  (tt,
   set_state1 (state0 (post (for_each motion_steps (motion_step SERVOMIN SERVOMAX w) g)))
              (post (for_each motion_steps (motion_step SERVOMIN SERVOMAX w) g)),
   out (for_each motion_steps (motion_step SERVOMIN SERVOMAX w) g)).
Proof.
  intros Hg. unfold animate. rewrite bind_run, for_lt_motion.
  pose proof (wf_steps w motion_steps g Hg) as (H0 & H1 & _).
  generalize dependent (for_each motion_steps (motion_step SERVOMIN SERVOMAX w) g).
  intros r H0 H1. rewrite (resync_run (post r) H0 H1). cbv [val post out fst snd].
  rewrite app_nil_r. reflexivity.
Qed.

Lemma guarded_run (m : Lane unit) (incoming : string) g :
  (c <- gets change ;; (if c then m else ret tt) ;; delay 100 incoming) g =
  if change g then (tt, recv incoming (post (m g)), out (m g) ++ [Delay 100])
  else (tt, recv incoming g, [Delay 100]).
Proof.
  rewrite bind_run. cbv [gets val post out fst snd].
  destruct (change g); rewrite bind_run, delay_run; reflexivity.
Qed.

Lemma loop_run w g :
  wf g -> change g = true ->
  loop SERVOMIN SERVOMAX w g =
  (tt, recv (rx100 w) (post (animate SERVOMIN SERVOMAX w g)),
   out (animate SERVOMIN SERVOMAX w g) ++ [Delay 100]).
Proof. intros Hg Hc. unfold loop. rewrite guarded_run, Hc. reflexivity. Qed.

Lemma loop_idle w g :
  change g = false -> loop SERVOMIN SERVOMAX w g = (tt, recv (rx100 w) g, [Delay 100]).
Proof. intros Hc. unfold loop. rewrite guarded_run, Hc. reflexivity. Qed.

Lemma wf_animate w g : wf g -> wf (post (animate SERVOMIN SERVOMAX w g)).
Proof.
  intros Hg. rewrite (animate_run w g Hg).
  pose proof (wf_steps w motion_steps g Hg) as (H0 & H1 & H2).
  generalize dependent (for_each motion_steps (motion_step SERVOMIN SERVOMAX w) g).
  intros r H0 H1 H2. repeat split; assumption.
Qed.

Lemma wf_loop w g : wf g -> wf (post (loop SERVOMIN SERVOMAX w g)).
Proof.
  intros Hg. destruct (change g) eqn:Hc.
  - rewrite (loop_run w g Hg Hc). apply wf_recv, wf_animate, Hg.
  - rewrite (loop_idle w g Hc). apply wf_recv, Hg.
Qed.

(** The cycle always ends with the latch equal to the target. *)
Lemma animate_synced w g : wf g -> synced (post (animate SERVOMIN SERVOMAX w g)).
Proof.
  intros Hg. rewrite (animate_run w g Hg).
  generalize (for_each motion_steps (motion_step SERVOMIN SERVOMAX w) g). intros r.
  reflexivity.
Qed.


(** *** Commands in traces *)

Lemma commands_nil_iff tr : commands tr = [] <-> Forall (fun e => is_command e = false) tr.
Proof.
  unfold commands. induction tr as [|e tr IH]; simpl.
  - split; [constructor | reflexivity].
  - destruct (is_command e) eqn:E; split; intros H.
    + discriminate.
    + inversion H; subst. congruence.
    + constructor; [exact E | apply IH, H].
    + inversion H; subst. apply IH. assumption.
Qed.

Lemma last_command_app_none j tr1 tr2 :
  Forall (fun e => on_channel j e = false) tr2 ->
  last_command j (tr1 ++ tr2) = last_command j tr1.
Proof.
  intros H. unfold last_command. rewrite List.filter_app.
  replace (List.filter (on_channel j) tr2) with (@nil event).
  - rewrite app_nil_r. reflexivity.
  - induction H as [|e tr2 He _ IH]; simpl; [reflexivity|]. rewrite He. exact IH.
Qed.

Lemma last_command_app_some j tr1 tr2 e :
  last_command j tr2 = Some e -> last_command j (tr1 ++ tr2) = Some e.
Proof.
  unfold last_command. intros H. rewrite List.filter_app, last_app, H. reflexivity.
Qed.

Lemma no_command_no_channel j tr :
  Forall (fun e => is_command e = false) tr -> Forall (fun e => on_channel j e = false) tr.
Proof.
  intros H. eapply Forall_impl; [exact H|].
  intros [ | | ] E; cbn [is_command on_channel] in *; congruence.
Qed.

Lemma reads_no_command : Forall (fun e => is_command e = false) reads.
Proof. repeat constructor. Qed.

Lemma reads_no_channel j : Forall (fun e => on_channel j e = false) reads.
Proof. repeat constructor. Qed.

Lemma moves_shape i a b :
  Forall (fun e => exists j flex, e = SetPWM j 0 (pulse SERVOMIN SERVOMAX j flex i))
         (moves SERVOMIN SERVOMAX i a b).
Proof.
  unfold moves. apply Forall_flat_map, Forall_forall. intros j _.
  destruct (negb _); repeat constructor. eauto.
Qed.

Lemma moves_same i a : moves SERVOMIN SERVOMAX i a a = [].
Proof. unfold moves. cbn [flat_map]. rewrite !Bool.eqb_reflx. reflexivity. Qed.

Lemma moves_skip i a b j :
  rd a j = rd b j ->
  Forall (fun e => on_channel j e = false) (moves SERVOMIN SERVOMAX i a b).
Proof.
  intros H. unfold moves. apply Forall_flat_map, Forall_forall. intros j' _.
  destruct (negb (Bool.eqb (rd a j') (rd b j'))) eqn:E; [|constructor].
  constructor; [|constructor]. cbn [on_channel]. apply Z.eqb_neq. intros ->.
  rewrite H, Bool.eqb_reflx in E. discriminate.
Qed.

(** *** The schedule of a cycle *)


(** *** Steps that move nothing *)

Lemma silent_no_new_line w : silent w -> no_new_line w.
Proof. intros [H1 H2]. split; [intros i; rewrite H1 | rewrite H2]; reflexivity. Qed.

(** A step taken with latch and target equal moves nothing and keeps them
    equal, as long as no line is completed during its delay. *)
Lemma synced_step w i g :
  wf g -> synced g -> newline_free (rx17 w i) = true ->
  (wf (post (motion_step SERVOMIN SERVOMAX w i g)) /\
   synced (post (motion_step SERVOMIN SERVOMAX w i g)) /\
   state0 (post (motion_step SERVOMIN SERVOMAX w i g)) = state0 g /\
   change (post (motion_step SERVOMIN SERVOMAX w i g)) = change g /\
   state (post (motion_step SERVOMIN SERVOMAX w i g)) = String.append (state g) (rx17 w i)) /\
  Forall (fun e => is_command e = false) (out (motion_step SERVOMIN SERVOMAX w i g)).
Proof.
  intros Hg Hs Hn. rewrite (motion_step_run w i g Hg).
  rewrite ?post_triple, ?out_triple. unfold synced in *. rewrite Hs.
  pose proof Hg as (H0 & H1 & H2).
  rewrite (latched_same _ _ H0), moves_same.
  destruct (recv_newline_free (rx17 w i) (gated w i g) Hn) as (K0 & K1 & K2 & K3 & K4).
  split.
  - split; [apply wf_recv, wf_gated, Hg|].
    rewrite K0, K1, K2, K4. unfold gated. cbn [state0 state1 change state].
    rewrite Hs, (latched_same _ _ H0). repeat split.
  - apply Forall_app. split; [apply reads_no_command | repeat constructor].
Qed.

Lemma synced_steps w l g :
  wf g -> synced g -> (forall i, In i l -> newline_free (rx17 w i) = true) ->
  settled g (post (for_each l (motion_step SERVOMIN SERVOMAX w) g)) /\
  Forall (fun e => is_command e = false) (out (for_each l (motion_step SERVOMIN SERVOMAX w) g)).
Proof.
  intros Hg Hs Hn.
  apply (for_each_inv (settled g) (fun e => is_command e = false) l
           (motion_step SERVOMIN SERVOMAX w));
    [|split; [exact Hg | split; [exact Hs | split; reflexivity]]].
  intros i g' Hi (Hg' & Hs' & H0 & Hc).
  destruct (synced_step w i g' Hg' Hs' (Hn i Hi)) as ((K1 & K2 & K3 & K4 & _) & K5).
  split; [|exact K5].
  split; [exact K1 | split; [exact K2 | split; congruence]].
Qed.

Lemma synced_loop w g :
  wf g -> synced g -> no_new_line w ->
  settled g (post (loop SERVOMIN SERVOMAX w g)) /\
  Forall (fun e => is_command e = false) (out (loop SERVOMIN SERVOMAX w g)).
Proof.
  intros Hg Hs [Hn Hn'].
  destruct (change g) eqn:Hc.
  - rewrite (loop_run w g Hg Hc), (animate_run w g Hg). rewrite ?post_triple, ?out_triple.
    destruct (synced_steps w motion_steps g Hg Hs (fun i _ => Hn i)) as ((L1 & L2 & L3 & L4) & L5).
    generalize dependent (for_each motion_steps (motion_step SERVOMIN SERVOMAX w) g).
    intros r L1 L2 L3 L4 L5.
    destruct (recv_newline_free (rx100 w) (set_state1 (state0 (post r)) (post r)) Hn')
      as (K0 & K1 & K2 & K3 & K4).
    split.
    + split; [apply wf_recv; destruct L1 as (? & ? & ?); repeat split; assumption|].
      unfold synced. rewrite K0, K1, K2. cbn [state0 state1 change set_state1].
      repeat split; congruence.
    + apply Forall_app. split; [exact L5 | repeat constructor].
  - rewrite (loop_idle w g Hc). rewrite ?post_triple, ?out_triple.
    destruct (recv_newline_free (rx100 w) g Hn') as (J0 & J1 & J2 & J3 & J4).
    split.
    + split; [apply wf_recv, Hg|]. unfold synced in *. rewrite J0, J1, J2.
      repeat split; congruence.
    + repeat constructor.
Qed.

Lemma synced_loops ws : forall g,
  wf g -> synced g -> Forall no_new_line ws ->
  settled g (post (loops SERVOMIN SERVOMAX ws g)) /\
  Forall (fun e => is_command e = false) (out (loops SERVOMIN SERVOMAX ws g)).
Proof.
  induction ws as [|w ws IH]; intros g Hg Hs Hws.
  - cbn [loops]. repeat split; try apply Hg; try assumption. constructor.
  - inversion Hws as [|? ? Hw Hws']; subst. cbn [loops].
    rewrite post_bind, out_bind.
    destruct (synced_loop w g Hg Hs Hw) as ((K1 & K2 & K3 & K4) & K5).
    destruct (IH _ K1 K2 Hws') as ((L1 & L2 & L3 & L4) & L5).
    split; [repeat split; try apply L1; try assumption; congruence|].
    apply Forall_app. split; assumption.
Qed.

(** With no byte arriving, a pass of [loop] leaves the target, the buffer
    and the flag as they were. *)
Lemma silent_step w i g :
  wf g -> rx17 w i = EmptyString ->
  wf (post (motion_step SERVOMIN SERVOMAX w i g)) /\
  state0 (post (motion_step SERVOMIN SERVOMAX w i g)) = state0 g /\
  state (post (motion_step SERVOMIN SERVOMAX w i g)) = state g /\
  change (post (motion_step SERVOMIN SERVOMAX w i g)) = change g.
Proof.
  intros Hg Hr. rewrite (motion_step_run w i g Hg).
  rewrite ?post_triple. rewrite Hr. cbn [recv].
  split; [apply wf_gated, Hg | repeat split].
Qed.

Lemma silent_steps w l g :
  wf g -> (forall i, In i l -> rx17 w i = EmptyString) ->
  untouched g (post (for_each l (motion_step SERVOMIN SERVOMAX w) g)).
Proof.
  intros Hg Hr.
  apply (for_each_inv (untouched g) (fun _ => True) l (motion_step SERVOMIN SERVOMAX w));
    [|repeat split; apply Hg].
  intros i g0 Hi (Hg0 & J0 & J1 & J2).
  destruct (silent_step w i g0 Hg0 (Hr i Hi)) as (L & L0 & L1 & L2).
  split; [repeat split; try apply L; congruence|].
  apply Forall_forall. intros; exact I.
Qed.

Lemma silent_loop w g :
  wf g -> silent w ->
  state0 (post (loop SERVOMIN SERVOMAX w g)) = state0 g /\
  state (post (loop SERVOMIN SERVOMAX w g)) = state g /\
  change (post (loop SERVOMIN SERVOMAX w g)) = change g.
Proof.
  intros Hg [Hr Hr']. destruct (change g) eqn:Hc.
  - rewrite (loop_run w g Hg Hc), (animate_run w g Hg). rewrite ?post_triple.
    rewrite Hr'. cbn [recv].
    destruct (silent_steps w motion_steps g Hg (fun i _ => Hr i)) as (_ & K0 & K1 & K2).
    generalize dependent (for_each motion_steps (motion_step SERVOMIN SERVOMAX w) g).
    intros r K0 K1 K2. cbn [state0 state change set_state1]. repeat split; congruence.
  - rewrite (loop_idle w g Hc). rewrite ?post_triple. rewrite Hr'. cbn [recv].
    repeat split; assumption.
Qed.

(** *** The latch of one finger *)

(** Once latch and target of finger [j] agree they keep agreeing, and the
    finger is not moved, in every step during whose delay no line is
    completed. *)
Lemma held_step w i g j :
  wf g -> 0 <= j < 6 -> rd (state1 g) j = rd (state0 g) j ->
  newline_free (rx17 w i) = true ->
  (wf (post (motion_step SERVOMIN SERVOMAX w i g)) /\
   rd (state1 (post (motion_step SERVOMIN SERVOMAX w i g))) j =
   rd (state0 (post (motion_step SERVOMIN SERVOMAX w i g))) j) /\
  Forall (fun e => on_channel j e = false) (out (motion_step SERVOMIN SERVOMAX w i g)).
Proof.
  intros Hg Hj Heq Hn. rewrite (motion_step_run w i g Hg).
  rewrite ?post_triple, ?out_triple. pose proof Hg as (H0 & H1 & H2).
  assert (rd (latched (exceeds w i) (state0 g) (state1 g)) j = rd (state0 g) j) as Hl.
  { rewrite (latched_lookup _ _ _ j H0 H1 Hj). destruct (_ && _); congruence. }
  destruct (recv_newline_free (rx17 w i) (gated w i g) Hn) as (K0 & K1 & _).
  split.
  - split; [apply wf_recv, wf_gated, Hg|]. rewrite K0, K1. exact Hl.
  - apply Forall_app. split; [apply reads_no_channel|].
    apply Forall_app. split; [apply moves_skip; congruence | repeat constructor].
Qed.

Lemma held_steps w l j : forall g,
  wf g -> 0 <= j < 6 -> rd (state1 g) j = rd (state0 g) j ->
  (forall i, In i l -> newline_free (rx17 w i) = true) ->
  Forall (fun e => on_channel j e = false)
         (out (for_each l (motion_step SERVOMIN SERVOMAX w) g)).
Proof.
  intros g Hg Hj Heq Hn.
  apply (for_each_inv (fun g' => wf g' /\ rd (state1 g') j = rd (state0 g') j)
           (fun e => on_channel j e = false) l (motion_step SERVOMIN SERVOMAX w));
    [|split; assumption].
  intros i g' Hi (Hg' & Heq'). exact (held_step w i g' j Hg' Hj Heq' (Hn i Hi)).
Qed.

(** ** The claims about the main lane *)

(** The cycle with the receive task running during the resync. *)
Lemma animate_unlocked_run w sched bytes g :
  animate_unlocked SERVOMIN SERVOMAX w sched bytes g =
  (tt,
   stores (interleave sched resync_stores (recv_stores bytes))
          (post (for_each motion_steps (motion_step SERVOMIN SERVOMAX w) g)),
   out (for_each motion_steps (motion_step SERVOMIN SERVOMAX w) g)).
Proof.
  unfold animate_unlocked. rewrite bind_run, for_lt_motion.
  generalize (for_each motion_steps (motion_step SERVOMIN SERVOMAX w) g). intros r.
  cbv [modify val post out fst snd]. rewrite app_nil_r. reflexivity.
Qed.

(** The motion steps do not write the target: it changes only when a line
    is completed during one of their delays. *)
Lemma steps_keep_target w l : forall g,
  wf g -> (forall i, In i l -> newline_free (rx17 w i) = true) ->
  state0 (post (for_each l (motion_step SERVOMIN SERVOMAX w) g)) = state0 g.
Proof.
  induction l as [|i l IH]; intros g Hg Hn; [reflexivity|].
  rewrite post_for_each_cons.
  rewrite (IH _ (wf_motion_step w i g Hg) (fun k Hk => Hn k (or_intror Hk))).
  rewrite (motion_step_run w i g Hg), post_triple.
  destruct (recv_newline_free (rx17 w i) (gated w i g) (Hn i (or_introl eq_refl))) as (K0 & _).
  rewrite K0. reflexivity.
Qed.


(** C3. The resync of lines 126-128 copies the target into the latch and
    writes nothing else.  Run without a store of the receive task in
    between, it ends the cycle with [state1] equal to [state0]; the
    receive lane never writes [state1], so the latch is still that target
    when the next cycle starts, and the target itself is the one the cycle
    started with unless a line was completed meanwhile.  With the receive
    task running during the resync, under any schedule: a cycle during
    whose resync no line is completed ends with [state1] equal to [state0],
    and in general entry [p] of the two agrees at the end whenever entry
    [p] is copied at a point after which the receive task does not store
    it. *)
Theorem resync_at_cycle_end (w : World) (g : Globals) (sched : list bool) (bytes : string) :
  wf g ->
  let unlocked := animate_unlocked SERVOMIN SERVOMAX w sched bytes g in
  (state1 (post (animate SERVOMIN SERVOMAX w g)) = state0 (post (animate SERVOMIN SERVOMAX w g)) /\
   (forall later,
      state1 (recv later (post (animate SERVOMIN SERVOMAX w g))) =
      state0 (post (animate SERVOMIN SERVOMAX w g))) /\
   (change g = true ->
    state1 (post (loop SERVOMIN SERVOMAX w g)) = state0 (post (animate SERVOMIN SERVOMAX w g))) /\
   ((forall i, newline_free (rx17 w i) = true) ->
    state0 (post (animate SERVOMIN SERVOMAX w g)) = state0 g)) /\
  animate_unlocked SERVOMIN SERVOMAX w sched EmptyString g = animate SERVOMIN SERVOMAX w g /\
  (newline_free bytes = true -> state1 (post unlocked) = state0 (post unlocked)) /\
  (forall p, 0 <= p < 6 ->
     copied_last p (interleave sched resync_stores (recv_stores bytes)) = true ->
     rd (state1 (post unlocked)) p = rd (state0 (post unlocked)) p).
Proof.
  intros Hg unlocked. pose proof (animate_synced w g Hg) as H1. unfold synced in H1.
  pose proof (wf_steps w motion_steps g Hg) as (L0 & L1 & _).
  assert (forall later,
            state1 (recv later (post (animate SERVOMIN SERVOMAX w g))) =
            state0 (post (animate SERVOMIN SERVOMAX w g))) as H2.
  { intros later.
    destruct (recv_frame later (post (animate SERVOMIN SERVOMAX w g))) as (_ & K & _).
    rewrite K. exact H1. }
  assert (forall p, 0 <= p < 6 ->
            copied_last p (interleave sched resync_stores (recv_stores bytes)) = true ->
            rd (state1 (post unlocked)) p = rd (state0 (post unlocked)) p) as H3.
  { intros p Hp Hc. unfold unlocked. rewrite animate_unlocked_run, post_triple.
    apply copied_last_sound; [exact Hp | exact L0 | exact L1 | | exact Hc].
    apply interleave_Forall; [apply resync_stores_ok | apply recv_stores_ok]. }
  split; [|split; [|split; [|exact H3]]].
  - split; [exact H1|]. split; [exact H2|]. split.
    + intros Hc. rewrite (loop_run w g Hg Hc), post_triple. apply H2.
    + intros Hn. rewrite (animate_run w g Hg), post_triple.
      generalize (steps_keep_target w motion_steps g Hg (fun i _ => Hn i)).
      generalize (for_each motion_steps (motion_step SERVOMIN SERVOMAX w) g).
      intros r Hr. exact Hr.
  - rewrite animate_unlocked_run, (animate_run w g Hg).
    cbn [recv_stores]. rewrite interleave_idle.
    generalize dependent (for_each motion_steps (motion_step SERVOMIN SERVOMAX w) g).
    intros r L0 L1. rewrite (resync_stores_resync (post r) L0 L1), (resync_run (post r) L0 L1).
    reflexivity.
  - intros Hnl.
    assert (length (state1 (post unlocked)) = 6%nat /\ length (state0 (post unlocked)) = 6%nat)
      as [M1 M0].
    { unfold unlocked. rewrite animate_unlocked_run, post_triple.
      destruct (stores_lengths (interleave sched resync_stores (recv_stores bytes))
                  (post (for_each motion_steps (motion_step SERVOMIN SERVOMAX w) g))) as [K0 K1].
      split; congruence. }
    apply six_ext; [exact M1 | exact M0|]. intros p Hp. apply (H3 p Hp).
    apply copied_last_intro.
    + apply no_decode_existsb, interleave_Forall.
      * repeat constructor.
      * apply recv_stores_no_decode, Hnl.
    + apply interleave_In_main.
      assert (p = 0 \/ p = 1 \/ p = 2 \/ p = 3 \/ p = 4 \/ p = 5) as Hc by lia.
      destruct Hc as [->|[->|[->|[->|[->| ->]]]]]; cbn; tauto.
Qed.

(** C4. The same line twice in a row.  After the first line has been
    animated (nothing else arriving meanwhile), receiving the identical line
    again raises [change] but leaves the target equal to the latch, and no
    later pass of [loop] calls [pwm.setPWM], however many passes follow and
    whatever the sensors read, until another line is completed. *)
Theorem same_line_twice_no_motion
    (g : Globals) (text : string) (w1 : World) (ws : list World) :
  wf g -> state g = EmptyString -> newline_free text = true ->
  silent w1 -> Forall no_new_line ws ->
  let g1 := recv (line text) g in
  let g2 := post (loop SERVOMIN SERVOMAX w1 g1) in
  let g3 := recv (line text) g2 in
  change g3 = true /\ state0 g3 = state0 g1 /\ state1 g3 = state0 g3 /\
  commands (out (loops SERVOMIN SERVOMAX ws g3)) = [] /\
  change (post (loops SERVOMIN SERVOMAX ws g3)) = true.
Proof.
  intros Hg Hbuf Hnl Hw1 Hws g1 g2 g3.
  destruct (recv_line text g Hnl) as (A0 & A1 & A2 & A3 & A4). fold g1 in A0, A1, A2, A3, A4.
  assert (wf g1) as Hg1 by apply wf_recv, Hg.
  destruct (silent_loop w1 g1 Hg1 Hw1) as (B0 & B1 & B2). fold g2 in B0, B1, B2.
  assert (state1 g2 = state0 g2) as Hsync.
  { unfold g2. rewrite (loop_run w1 g1 Hg1 A2), post_triple.
    destruct (recv_newline_free (rx100 w1) (post (animate SERVOMIN SERVOMAX w1 g1)))
      as (K0 & K1 & _); [apply silent_no_new_line, Hw1|].
    rewrite K0, K1. apply animate_synced, Hg1. }
  assert (wf g2) as Hg2 by apply wf_loop, Hg1.
  destruct (recv_line text g2 Hnl) as (C0 & C1 & C2 & C3 & C4). fold g3 in C0, C1, C2, C3, C4.
  assert (state0 g3 = state0 g1) as H03.
  { rewrite C0, B1, A4, B0, A0, Hbuf. cbn [String.append].
    rewrite (decoded_full text (state0 g)) by apply Hg.
    rewrite decoded_full by reflexivity. reflexivity. }
  assert (state1 g3 = state0 g3) as Hs3 by congruence.
  assert (wf g3) as Hg3 by apply wf_recv, Hg2.
  destruct (synced_loops ws g3 Hg3 Hs3 Hws) as ((_ & _ & _ & D) & D').
  split; [exact C2|]. split; [exact H03|]. split; [exact Hs3|].
  split; [apply commands_nil_iff; exact D' | congruence].
Qed.

(** C2 (amended).  When sensor [k] reads above its threshold in step [i0],
    the gate makes the latch of finger [k + 1] equal to its target, and the
    finger gets no [setPWM] from that step to the end of the cycle, provided
    the receive lane completes no line during the delays of these steps. *)
Theorem latched_finger_stays_still (w : World) (g : Globals)
    (before : list Z) (i0 : Z) (rest : list Z) (k : Z) :
  wf g -> motion_steps = before ++ i0 :: rest -> 0 <= k < 5 ->
  (forall i, In i (i0 :: rest) -> newline_free (rx17 w i) = true) ->
  latch_holds SERVOMIN SERVOMAX w
    (post (for_each before (motion_step SERVOMIN SERVOMAX w) g)) i0 rest k /\
  out (for_lt 5 135 5 (motion_step SERVOMIN SERVOMAX w) g) =
  out (for_each before (motion_step SERVOMIN SERVOMAX w) g) ++
  out (for_each (i0 :: rest) (motion_step SERVOMIN SERVOMAX w)
         (post (for_each before (motion_step SERVOMIN SERVOMAX w) g))).
Proof.
  intros Hg Hsplit Hk Hn. split.
  - pose proof (wf_steps w before g Hg) as Hg0.
    generalize dependent (post (for_each before (motion_step SERVOMIN SERVOMAX w) g)).
    intros g0 Hg0 Hex.
    pose proof Hg0 as (H0 & H1 & H2).
    assert (rd (latched (exceeds w i0) (state0 g0) (state1 g0)) (k + 1) = rd (state0 g0) (k + 1))
      as Hl.
    { rewrite (latched_lookup _ _ _ (k + 1) H0 H1) by lia.
      replace (k + 1 - 1) with k by lia. rewrite Hex.
      destruct (Z.leb_spec 1 (k + 1)); [reflexivity | lia]. }
    split.
    + rewrite (sensor_gate_run w i0 g0 Hg0), post_triple. exact Hl.
    + cbn [for_each]. rewrite out_bind. apply Forall_app. split.
      * rewrite (motion_step_run w i0 g0 Hg0), out_triple.
        apply Forall_app. split; [apply reads_no_channel|].
        apply Forall_app. split; [apply moves_skip; congruence | repeat constructor].
      * assert (newline_free (rx17 w i0) = true) as Hn0 by (apply Hn; left; reflexivity).
        rewrite (motion_step_run w i0 g0 Hg0), post_triple.
        destruct (recv_newline_free (rx17 w i0) (gated w i0 g0) Hn0) as (K0 & K1 & _).
        apply held_steps; [apply wf_recv, wf_gated, Hg0 | lia | | ].
        -- rewrite K0, K1. exact Hl.
        -- intros i Hi. apply Hn. right. exact Hi.
  - rewrite for_lt_motion, Hsplit, for_each_app, out_bind. reflexivity.
Qed.

(** *** A target overwritten during the cycle *)

Lemma last_command_flex i j :
  0 <= j < 6 ->
  last_command j (reads ++ moves SERVOMIN SERVOMAX i all_flexed all_extended ++ [Delay 17]) =
  Some (SetPWM j 0 (pulse SERVOMIN SERVOMAX j true i)).
Proof.
  intros Hj.
  assert (j = 0 \/ j = 1 \/ j = 2 \/ j = 3 \/ j = 4 \/ j = 5) as Hc by lia.
  destruct Hc as [->|[->|[->|[->|[->| ->]]]]]; reflexivity.
Qed.

(** With every target true, every latch false and no sensor above its
    threshold, a step moves all six fingers in the flex direction. *)
Lemma flexing_step w i g :
  wf g -> state0 g = all_flexed -> state1 g = all_extended ->
  rx17 w i = EmptyString -> (forall k, 0 <= k < 5 -> exceeds w i k = false) ->
  (wf (post (motion_step SERVOMIN SERVOMAX w i g)) /\
   state0 (post (motion_step SERVOMIN SERVOMAX w i g)) = all_flexed /\
   state1 (post (motion_step SERVOMIN SERVOMAX w i g)) = all_extended) /\
  out (motion_step SERVOMIN SERVOMAX w i g) =
  reads ++ moves SERVOMIN SERVOMAX i all_flexed all_extended ++ [Delay 17].
Proof.
  intros Hg H0 H1 Hr Hex. rewrite (motion_step_run w i g Hg), post_triple, out_triple.
  rewrite Hr, (latched_none _ _ _ Hex), H0, H1. cbn [recv].
  split; [|reflexivity].
  split; [apply wf_gated, Hg|]. unfold gated. cbn [state0 state1].
  rewrite (latched_none _ _ _ Hex). split; assumption.
Qed.

Lemma flexing_steps w l g :
  wf g -> state0 g = all_flexed -> state1 g = all_extended ->
  (forall i, In i l -> rx17 w i = EmptyString) ->
  (forall i k, In i l -> 0 <= k < 5 -> exceeds w i k = false) ->
  wf (post (for_each l (motion_step SERVOMIN SERVOMAX w) g)) /\
  state0 (post (for_each l (motion_step SERVOMIN SERVOMAX w) g)) = all_flexed /\
  state1 (post (for_each l (motion_step SERVOMIN SERVOMAX w) g)) = all_extended.
Proof.
  intros Hg H0 H1 Hr Hex.
  apply (for_each_inv
           (fun g' => wf g' /\ state0 g' = all_flexed /\ state1 g' = all_extended)
           (fun _ => True) l (motion_step SERVOMIN SERVOMAX w));
    [|split; [exact Hg | split; assumption]].
  intros i g' Hi (Hg' & H0' & H1').
  destruct (flexing_step w i g' Hg' H0' H1' (Hr i Hi) (fun k Hk => Hex i k Hi Hk)) as [K _].
  split; [exact K|]. apply Forall_forall. intros; exact I.
Qed.

Lemma last_motion_step before s rest' l :
  motion_steps = before ++ s :: rest' ++ [l] -> l = 130.
Proof.
  intros H. apply (f_equal last) in H.
  change (before ++ s :: rest' ++ [l]) with (before ++ (s :: rest') ++ [l]) in H.
  rewrite app_assoc, last_snoc in H. compute in H. congruence.
Qed.

(** The cycle in which the target is overwritten after step [s]: it ends
    with every target true and every latch still false, and its last step
    is a flex of all six fingers. *)
Lemma overwritten_cycle w g before s rest' :
  wf g -> synced g -> state0 g = all_extended -> state g = EmptyString ->
  (forall i, In i before -> rx17 w i = EmptyString) ->
  rx17 w s = line "111111" ->
  (forall i, In i (rest' ++ [130]) -> rx17 w i = EmptyString) ->
  (forall i k, In i (rest' ++ [130]) -> 0 <= k < 5 -> exceeds w i k = false) ->
  wf (post (for_each (before ++ s :: rest' ++ [130]) (motion_step SERVOMIN SERVOMAX w) g)) /\
  state0 (post (for_each (before ++ s :: rest' ++ [130]) (motion_step SERVOMIN SERVOMAX w) g))
  = all_flexed /\
  exists pre,
    out (for_each (before ++ s :: rest' ++ [130]) (motion_step SERVOMIN SERVOMAX w) g) =
    pre ++ (reads ++ moves SERVOMIN SERVOMAX 130 all_flexed all_extended ++ [Delay 17]).
Proof.
  intros Hg Hs H0 Hbuf HrA Hrs HrB Hex.
  rewrite post_for_each_app, out_for_each_app, post_for_each_cons, out_for_each_cons.
  rewrite post_for_each_app, out_for_each_app, post_for_each_one, out_for_each_one.
  (* the steps before [s] *)
  destruct (synced_steps w before g Hg Hs) as ((HgA & HsA & H0A & _) & _).
  { intros i Hi. rewrite (HrA i Hi). reflexivity. }
  destruct (silent_steps w before g Hg HrA) as (_ & _ & HbA & _).
  generalize dependent (for_each before (motion_step SERVOMIN SERVOMAX w) g).
  intros rA HgA HsA H0A HbA.
  (* step [s]: nothing moves, then the second line is decoded *)
  rewrite (motion_step_run w s (post rA) HgA), !post_triple, !out_triple, Hrs.
  destruct (recv_line "111111" (gated w s (post rA)) eq_refl) as (B0 & B1 & _).
  assert (wf (recv (line "111111") (gated w s (post rA)))) as HgB
    by apply wf_recv, wf_gated, HgA.
  cbn [gated state0 state1 state] in B0, B1. unfold synced in HsA.
  rewrite HbA, Hbuf, (decoded_full _ _ (proj1 HgA)) in B0.
  change (state0 (recv (line "111111") (gated w s (post rA))) = all_flexed) in B0.
  rewrite HsA, (latched_same _ _ (proj1 HgA)), H0A, H0 in B1.
  generalize dependent (recv (line "111111") (gated w s (post rA))).
  intros gB B0 B1 HgB.
  (* the steps after [s] *)
  destruct (flexing_steps w rest' gB HgB B0 B1) as (HgC & C0 & C1).
  { intros i Hi. apply HrB, in_or_app. left. exact Hi. }
  { intros i k Hi. apply Hex, in_or_app. left. exact Hi. }
  generalize dependent (for_each rest' (motion_step SERVOMIN SERVOMAX w) gB).
  intros rC HgC C0 C1.
  destruct (flexing_step w 130 (post rC) HgC C0 C1) as ((HgD & D0 & D1) & Dout).
  { apply HrB, in_or_app. right. left. reflexivity. }
  { intros k. apply Hex, in_or_app. right. left. reflexivity. }
  split; [exact HgD|]. split; [exact D0|].
  rewrite Dout. eexists. rewrite !app_assoc. reflexivity.
Qed.

(** C5 (amended).  In a state with all fingers extended and in sync, the line
    "000000" is received and animated; the line "111111" arrives during the
    delay of a step [s] that is not the last one, nothing else arrives, and
    no sensor reads above its threshold in the steps after [s].  Then the
    running cycle itself flexes every finger in the steps after [s], the
    last [setPWM] of every finger is the flex command of step 130, the cycle
    ends with latch and target all true, and the next pass of [loop] issues
    no command. *)
Theorem overwrite_before_last_step (w1 w2 : World) (g : Globals)
    (before : list Z) (s : Z) (rest : list Z) (j : Z) :
  wf g -> state g = EmptyString -> state1 g = all_extended ->
  motion_steps = before ++ s :: rest -> rest <> [] ->
  (forall i, In i before -> rx17 w1 i = EmptyString) ->
  rx17 w1 s = line "111111" ->
  (forall i, In i rest -> rx17 w1 i = EmptyString) ->
  rx100 w1 = EmptyString ->
  (forall i k, In i rest -> 0 <= k < 5 -> exceeds w1 i k = false) ->
  no_new_line w2 -> 0 <= j < 6 ->
  let r1 := loop SERVOMIN SERVOMAX w1 (recv (line "000000") g) in
  let r2 := loop SERVOMIN SERVOMAX w2 (post r1) in
  last_command j (out r1 ++ out r2) = Some (SetPWM j 0 (pulse SERVOMIN SERVOMAX j true 130)) /\
  commands (out r2) = [] /\
  state0 (post r2) = all_flexed /\ state1 (post r2) = all_flexed.
Proof.
  intros Hg Hbuf Hlatch Hsplit Hrest HrA Hrs HrB Hr100 Hex Hw2 Hj r1 r2.
  (* the first line *)
  destruct (recv_line "000000" g eq_refl) as (A0 & A1 & A2 & A3 & A4).
  assert (wf (recv (line "000000") g)) as Hg1 by apply wf_recv, Hg.
  rewrite Hbuf, (decoded_full _ _ (proj1 Hg)) in A0. rewrite Hlatch in A1.
  change (state0 (recv (line "000000") g) = all_extended) in A0.
  (* the first pass *)
  destruct (exists_last Hrest) as (rest' & l & ->).
  pose proof (last_motion_step _ _ _ _ Hsplit) as ->.
  destruct (overwritten_cycle w1 (recv (line "000000") g) before s rest' Hg1)
    as (HgD & D0 & pre & Dout); try assumption; [unfold synced; congruence|].
  unfold r2, r1. clear r1 r2.
  rewrite (loop_run w1 _ Hg1 A2), (animate_run w1 _ Hg1), Hr100, !post_triple, !out_triple.
  cbn [recv]. rewrite <- Hsplit in HgD, D0, Dout. rewrite Dout.
  generalize dependent
    (post (for_each motion_steps (motion_step SERVOMIN SERVOMAX w1) (recv (line "000000") g))).
  intros gD HgD D0.
  (* the second pass *)
  assert (wf (set_state1 (state0 gD) gD)) as HgE.
  { destruct HgD as (? & ? & ?). repeat split; assumption. }
  destruct (synced_loop w2 (set_state1 (state0 gD) gD) HgE eq_refl Hw2)
    as ((_ & E1 & E2 & _) & Eout).
  unfold synced in E1. cbn [state0 set_state1] in E2.
  split; [|split; [apply commands_nil_iff, Eout | split; congruence]].
  rewrite (last_command_app_none j _ _ (no_command_no_channel j _ Eout)).
  rewrite (last_command_app_none j _ [Delay 100]) by repeat constructor.
  apply last_command_app_some, last_command_flex, Hj.
Qed.

(** *** The flag *)

Lemma on_byte_keeps_change c g : change g = true -> change (post (on_byte c g)) = true.
Proof.
  intros H. destruct (Ascii.eqb c newline) eqn:E.
  - apply Ascii.eqb_eq in E. subst c. rewrite on_newline. reflexivity.
  - rewrite (on_other c g E). exact H.
Qed.

Lemma recv_keeps_change bytes : forall g, change g = true -> change (recv bytes g) = true.
Proof.
  induction bytes as [|c bytes IH]; intros g H; cbn [recv]; [exact H|].
  apply IH, on_byte_keeps_change, H.
Qed.

Lemma line_sets_change text g : change (recv (line text) g) = true.
Proof. unfold line. rewrite recv_app. cbn [recv]. rewrite on_newline. reflexivity. Qed.

Lemma loop_keeps_change w g :
  wf g -> change g = true -> change (post (loop SERVOMIN SERVOMAX w g)) = true.
Proof.
  intros Hg Hc. rewrite (loop_run w g Hg Hc), post_triple. apply recv_keeps_change.
  rewrite (animate_run w g Hg), post_triple.
  destruct (for_each_inv (fun g' => wf g' /\ change g' = true) (fun _ => True)
              motion_steps (motion_step SERVOMIN SERVOMAX w)) with (g := g) as [[_ K] _].
  - intros i g' _ (Hg' & Hc'). split; [|apply Forall_forall; intros; exact I].
    split; [apply wf_motion_step, Hg'|].
    rewrite (motion_step_run w i g' Hg'), post_triple. apply recv_keeps_change. exact Hc'.
  - split; assumption.
  - exact K.
Qed.

(** C9 (amended).  The flag starts false, every complete line sets it, and
    nothing clears it: in every state the two lanes reach after a line has
    been received, the flag is true, a command pending or not. *)
Theorem change_is_never_cleared (g g' : Globals) (text : string) :
  wf g ->
  reach SERVOMIN SERVOMAX (recv (line text) g) g' ->
  change init = false /\ change (recv (line text) g) = true /\ change g' = true.
Proof.
  intros Hg Hreach. split; [reflexivity|]. split; [apply line_sets_change|].
  assert (wf g' /\ change g' = true) as [_ H]; [|exact H].
  induction Hreach as [|g' bytes _ [IHw IHc]|g' w _ [IHw IHc]].
  - split; [apply wf_recv, Hg | apply line_sets_change].
  - split; [apply wf_recv, IHw | apply recv_keeps_change, IHc].
  - split; [apply wf_loop, IHw | apply loop_keeps_change; assumption].
Qed.
End Cycle.

(** ** The thumb ramp *)

Lemma zrange_in lo n x : lo <= x < lo + Z.of_nat n -> In x (zrange lo n).
Proof.
  intros H. unfold zrange. apply in_map_iff. exists (Z.to_nat (x - lo)).
  split; [lia | apply in_seq; lia].
Qed.

Lemma flex_offset b i :
  0 <= b -> 0 <= i ->
  b + nearest_quotient (103 * i) 130 = nearest_quotient (130 * b + 103 * i) 130.
Proof.
  intros Hb Hi. unfold nearest_quotient.
  destruct (Z.leb_spec 0 (103 * i)); [|lia].
  destruct (Z.leb_spec 0 (130 * b + 103 * i)); [|lia].
  replace (2 * (130 * b + 103 * i) + 130) with (b * (2 * 130) + (2 * (103 * i) + 130)) by lia.
  rewrite Z.div_add_l by lia. reflexivity.
Qed.

Lemma extend_offset b i :
  0 <= b ->
  extend_expected b i (nearest_quotient (103 * i) 130) ((130 - 206 * i) / 260) =
  nearest_quotient (130 * b - 103 * i) 130.
Proof.
  intros Hb. unfold extend_expected, nearest_quotient.
  destruct (Z.leb_spec (103 * i) (130 * b)).
  - destruct (Z.leb_spec 0 (130 * b - 103 * i)); [|lia].
    replace (2 * (130 * b - 103 * i) + 130) with (b * (2 * 130) + (130 - 206 * i)) by lia.
    rewrite Z.div_add_l by lia. reflexivity.
  - destruct (Z.leb_spec 0 (130 * b - 103 * i)); [lia|].
    destruct (Z.leb_spec 0 (103 * i)); [|lia].
    replace (2 * - (130 * b - 103 * i) + 130) with (2 * (103 * i) + 130 + (- b) * (2 * 130))
      by lia.
    rewrite Z.div_add by lia. lia.
Qed.

Lemma flex_checked_sound bases iterations :
  flex_checked bases iterations = true ->
  forall b i, In b bases -> In i iterations -> 0 <= b -> 0 <= i ->
  Float32.round (Float32.add (Float32.of_int b) (scaled i)) =
  nearest_quotient (130 * b + 103 * i) 130.
Proof.
  unfold flex_checked, ramp_table. cbv zeta. intros H b i Hb Hi Hb0 Hi0.
  rewrite forallb_forall in H. specialize (H b Hb).
  rewrite forallb_forall in H.
  specialize (H (i, scaled i, nearest_quotient (103 * i) 130, (130 - 206 * i) / 260)).
  rewrite <- flex_offset by assumption.
  apply Z.eqb_eq, H, in_map_iff. exists i. split; [reflexivity | exact Hi].
Qed.

Lemma extend_checked_sound bases iterations :
  extend_checked bases iterations = true ->
  forall b i, In b bases -> In i iterations -> 0 <= b ->
  Float32.round (Float32.sub (Float32.of_int b) (scaled i)) =
  nearest_quotient (130 * b - 103 * i) 130.
Proof.
  unfold extend_checked, ramp_table. cbv zeta. intros H b i Hb Hi Hb0.
  rewrite forallb_forall in H. specialize (H b Hb).
  rewrite forallb_forall in H.
  specialize (H (i, scaled i, nearest_quotient (103 * i) 130, (130 - 206 * i) / 260)).
  rewrite <- extend_offset by assumption.
  apply Z.eqb_eq, H, in_map_iff. exists i. split; [reflexivity | exact Hi].
Qed.

(** Both directions, on every base value 0 .. 4095 and every iteration the
    loop of line 111 passes, by evaluation. *)
Lemma thumb_flex_checked : flex_checked (zrange 0 4096) ramp_iterations = true.
Proof. vm_cast_no_check (eq_refl true). Qed.

Lemma thumb_extend_checked : extend_checked (zrange 0 4096) ramp_iterations = true.
Proof. vm_cast_no_check (eq_refl true). Qed.

Lemma ramp_iterations_bounds i : In i ramp_iterations -> 0 <= i <= 130.
Proof.
  intros H. unfold ramp_iterations, motion_steps in H.
  repeat (destruct H as [<-|H]; [lia|]). destruct H.
Qed.

Lemma thumb_flex_exact b i :
  0 <= b <= 4095 -> In i ramp_iterations ->
  Float32.round (Float32.add (Float32.of_int b) (scaled i)) =
  nearest_quotient (130 * b + 103 * i) 130.
Proof.
  intros Hb Hi. pose proof (ramp_iterations_bounds i Hi).
  apply (flex_checked_sound _ _ thumb_flex_checked b i); [apply zrange_in| | |]; try lia.
  exact Hi.
Qed.

Lemma thumb_extend_exact b i :
  0 <= b <= 4095 -> In i ramp_iterations ->
  Float32.round (Float32.sub (Float32.of_int b) (scaled i)) =
  nearest_quotient (130 * b - 103 * i) 130.
Proof.
  intros Hb Hi.
  apply (extend_checked_sound _ _ thumb_extend_checked b i);
    [apply zrange_in; lia | exact Hi | lia].
Qed.

(** [nearest_quotient] is [nearest_integer] on fractions. *)
Lemma nearest_integer_fraction n (d : positive) :
  nearest_integer (n # d) = nearest_quotient n (Zpos d).
Proof.
  unfold nearest_integer, nearest_quotient, Qle_bool, Qceiling, Qfloor, Qminus, Qplus, Qopp.
  cbn [Qnum Qden]. rewrite Z.mul_0_l, Z.mul_1_r.
  destruct (0 <=? n).
  - f_equal; lia.
  - f_equal. f_equal; lia.
Qed.

Lemma nearest_integer_comp (p q : Q) : (p == q)%Q -> nearest_integer p = nearest_integer q.
Proof.
  intros H. unfold nearest_integer. rewrite H. destruct (Qle_bool 0 q); rewrite H; reflexivity.
Qed.

(** [nearest_integer] is within one half of its argument. *)
Lemma nearest_integer_close (q : Q) :
  (Qabs (inject_Z (nearest_integer q) - q) <= 1 # 2)%Q.
Proof.
  unfold nearest_integer. apply Qabs_Qle_condition.
  destruct (Qle_bool 0 q).
  - pose proof (Qfloor_le (q + (1 # 2))) as H1.
    pose proof (Qlt_floor (q + (1 # 2))) as H2.
    rewrite inject_Z_plus in H2. change (inject_Z 1) with 1%Q in H2.
    split; lra.
  - pose proof (Qle_ceiling (q - (1 # 2))) as H1.
    pose proof (Qceiling_lt (q - (1 # 2))) as H2.
    unfold Z.sub in H2. rewrite inject_Z_plus in H2. replace (inject_Z (- (1))) with (- (1))%Q in H2 by reflexivity.
    split; lra.
Qed.

(** *** [int] arithmetic within its range *)

Lemma wrap_small z : - 2147483648 <= z < 2147483648 -> Int32.wrap z = z.
Proof.
  intros H. unfold Int32.wrap.
  change (2 ^ 31) with 2147483648. change (2 ^ 32) with 4294967296.
  rewrite Z.mod_small by lia. lia.
Qed.

Lemma quot_320_between a m :
  0 <= m -> - (320 * m) <= a <= 320 * m -> - m <= Z.quot a 320 <= m.
Proof.
  intros Hm Ha. pose proof (Z.quot_rem' a 320) as E.
  destruct (Z.le_gt_cases 0 a) as [Hpos|Hneg].
  - pose proof (Z.rem_bound_pos a 320 ltac:(lia) ltac:(lia)). lia.
  - pose proof (Z.rem_nonpos a 320 ltac:(lia) ltac:(lia)).
    pose proof (Z.rem_bound_abs a 320 ltac:(lia)). lia.
Qed.

(** With calibration values of the 12-bit driver and an angle of the input
    range of [map], no step of [degToPwm] leaves the range of [long]. *)
Lemma degToPwm_exact SERVOMIN SERVOMAX d :
  0 <= SERVOMIN <= 4095 -> 0 <= SERVOMAX <= 4095 -> 0 <= d <= 320 ->
  degToPwm SERVOMIN SERVOMAX d = Z.quot (d * (SERVOMAX - SERVOMIN)) 320 + SERVOMIN.
Proof.
  intros H1 H2 Hd. unfold degToPwm, Arduino.map, Int32.add, Int32.quot, Int32.mul, Int32.sub.
  rewrite Z.sub_0_r. change (320 - 0) with 320.
  rewrite (wrap_small d), (wrap_small (SERVOMAX - SERVOMIN)), (wrap_small 320) by lia.
  pose proof (quot_320_between (d * (SERVOMAX - SERVOMIN)) 4095 ltac:(lia) ltac:(nia)) as Hq.
  rewrite (wrap_small (d * (SERVOMAX - SERVOMIN))) by nia.
  rewrite (wrap_small (Z.quot _ 320)) by lia.
  apply wrap_small. lia.
Qed.

Lemma deg_in_range SERVOMIN SERVOMAX :
  0 <= SERVOMIN <= 4095 -> 0 <= SERVOMAX <= 4095 ->
  0 <= deg SERVOMIN SERVOMAX <= 4095.
Proof.
  intros H1 H2. unfold deg. rewrite degToPwm_exact by lia.
  pose proof (Z.quot_rem' (75 * (SERVOMAX - SERVOMIN)) 320) as E.
  destruct (Z.le_gt_cases 0 (SERVOMAX - SERVOMIN)) as [Hpos|Hneg].
  - pose proof (Z.rem_bound_pos (75 * (SERVOMAX - SERVOMIN)) 320 ltac:(lia) ltac:(lia)). lia.
  - pose proof (Z.rem_nonpos (75 * (SERVOMAX - SERVOMIN)) 320 ltac:(lia) ltac:(lia)).
    pose proof (Z.rem_bound_abs (75 * (SERVOMAX - SERVOMIN)) 320 ltac:(lia)). lia.
Qed.

(** C8. For the thumb, [moveFinger] issues the exact quotient rounded to the
    nearest integer: [SERVOMIN + 103 i / 130] when flexing and
    [deg - 103 i / 130] when extending, [deg] being the pulse width for 75
    degrees, so that the steps from 0 to 130 span 103 device units.  Here
    [i] is 0 or one of the motion steps 5, 10, ..., 130, and the calibration
    values are pulse widths of the 12-bit driver, 0 .. 4095. *)
Theorem thumb_ramp (SERVOMIN SERVOMAX i : Z) (g : Globals) :
  0 <= SERVOMIN <= 4095 -> 0 <= SERVOMAX <= 4095 -> In i (0 :: motion_steps) ->
  moveFinger SERVOMIN SERVOMAX thumb true i g =
    (tt, g, [SetPWM thumb 0
               (nearest_integer (inject_Z SERVOMIN + 103 * inject_Z i / 130)%Q)]) /\
  moveFinger SERVOMIN SERVOMAX thumb false i g =
    (tt, g, [SetPWM thumb 0
               (nearest_integer (inject_Z (deg SERVOMIN SERVOMAX) - 103 * inject_Z i / 130)%Q)]) /\
  pulse SERVOMIN SERVOMAX thumb true 0 = SERVOMIN /\
  pulse SERVOMIN SERVOMAX thumb true 130 = SERVOMIN + 103 /\
  pulse SERVOMIN SERVOMAX thumb false 0 = deg SERVOMIN SERVOMAX /\
  pulse SERVOMIN SERVOMAX thumb false 130 = deg SERVOMIN SERVOMAX - 103.
Proof.
  intros Hmin Hmax Hi. pose proof (deg_in_range SERVOMIN SERVOMAX Hmin Hmax) as Hdeg.
  assert (In 0 ramp_iterations) as H0 by (left; reflexivity).
  assert (In 130 ramp_iterations) as H130 by (unfold ramp_iterations, motion_steps; do 26 right; left; reflexivity).
  assert (forall k, pulse SERVOMIN SERVOMAX thumb true k =
                    Float32.round (Float32.add (Float32.of_int SERVOMIN) (scaled k))) as Ef
    by reflexivity.
  assert (forall k, pulse SERVOMIN SERVOMAX thumb false k =
                    Float32.round (Float32.sub (Float32.of_int (deg SERVOMIN SERVOMAX)) (scaled k)))
    as Ee by reflexivity.
  rewrite !moveFinger_run, !Ee, !Ef, !thumb_flex_exact, !thumb_extend_exact by assumption.
  assert (forall n, nearest_integer (inject_Z SERVOMIN + 103 * inject_Z n / 130)%Q =
                    nearest_quotient (130 * SERVOMIN + 103 * n) 130) as Qf.
  { intros n. rewrite <- nearest_integer_fraction. apply nearest_integer_comp.
    cbv [Qeq Qplus Qmult Qdiv Qinv inject_Z Qnum Qden]. cbn [Pos.mul]. lia. }
  assert (forall b n, nearest_integer (inject_Z b - 103 * inject_Z n / 130)%Q =
                      nearest_quotient (130 * b - 103 * n) 130) as Qe.
  { intros b n. rewrite <- nearest_integer_fraction. apply nearest_integer_comp.
    cbv [Qeq Qminus Qplus Qopp Qmult Qdiv Qinv inject_Z Qnum Qden]. cbn [Pos.mul]. lia. }
  rewrite Qf, Qe. repeat split; unfold nearest_quotient.
  - destruct (Z.leb_spec 0 (130 * SERVOMIN + 103 * 0)); [|lia].
    symmetry. apply Z.div_unique with (r := 130); lia.
  - destruct (Z.leb_spec 0 (130 * SERVOMIN + 103 * 130)); [|lia].
    symmetry. apply Z.div_unique with (r := 130); lia.
  - destruct (Z.leb_spec 0 (130 * deg SERVOMIN SERVOMAX - 103 * 0)); [|lia].
    symmetry. apply Z.div_unique with (r := 130); lia.
  - destruct (Z.leb_spec 0 (130 * deg SERVOMIN SERVOMAX - 103 * 130)).
    + symmetry. apply Z.div_unique with (r := 130); lia.
    + assert ((2 * - (130 * deg SERVOMIN SERVOMAX - 103 * 130) + 130) / (2 * 130)
              = 103 - deg SERVOMIN SERVOMAX) as ->; [|lia].
      symmetry. apply Z.div_unique with (r := 130); lia.
Qed.

(** * Part IV: the theorems at concrete inputs *)

(** The calibration of the examples: [SERVOMIN] 150 and [SERVOMAX] 600. *)

Lemma digits_follow_finger_ids_witness :
  all_digits "010010" = true /\
  state0 (recv (line "010010") init) =
  List.map (fun p => flag_of (String.get p "010010")) [0; 1; 2; 3; 4; 5]%nat.
Proof.
  split; [reflexivity|].
  exact (proj2 (digits_follow_finger_ids init "010010" wf_init eq_refl eq_refl eq_refl)).
Defined.

(** C1 as the specification words it: positions in the order wrist, thumb,
    index, ...  The line "010000" sets the target of the index finger, not
    of the thumb. *)
Lemma second_digit_is_not_thumb :
  ~ follows_order [wrist; thumb; index; middle; ring; pinky] "010000" init.
Proof.
  intros H. specialize (H 1%nat thumb "1"%char eq_refl eq_refl).
  vm_compute in H. discriminate H.
Qed.

Lemma latched_finger_stays_still_witness :
  exceeds touch_world 5 0 = true /\
  latch_holds 150 600 touch_world
    (post (for_each [] (motion_step 150 600 touch_world) (recv (line "010000") init)))
    5 (tl motion_steps) 0.
Proof.
  split; [reflexivity|].
  refine (proj1 (latched_finger_stays_still 150 600 touch_world
                   (recv (line "010000") init) [] 5 (tl motion_steps) 0
                   (wf_recv _ _ wf_init) eq_refl _ _)).
  - lia.
  - intros i _. reflexivity.
Defined.

(** C2 as the specification words it, without the proviso: the index finger
    is latched in step 5, the target is overwritten during the delay of
    that step, and the finger is moved again in step 10. *)
Lemma latch_is_not_final :
  ~ latch_holds 150 600 latch_world (recv (line "010000") init) 5 (tl motion_steps) 0.
Proof.
  intros H. destruct H as [_ H]; [reflexivity|].
  assert (In (SetPWM 1 0 273)
             (out (for_each (5 :: tl motion_steps) (motion_step 150 600 latch_world)
                     (recv (line "010000") init)))) as Hin.
  { vm_compute. do 11 right. left. reflexivity. }
  rewrite Forall_forall in H. apply list_elem_of_In in Hin.
  specialize (H _ Hin). vm_compute in H. discriminate H.
Qed.

Lemma resync_at_cycle_end_witness :
  state1 (post (animate 150 600 latch_world (recv (line "010000") init))) =
  state0 (post (animate 150 600 latch_world (recv (line "010000") init))) /\
  rd (state1 (post (animate_unlocked 150 600 latch_world torn_schedule (line "110000")
                      (recv (line "010000") init)))) 0 =
  rd (state0 (post (animate_unlocked 150 600 latch_world torn_schedule (line "110000")
                      (recv (line "010000") init)))) 0.
Proof.
  pose proof (resync_at_cycle_end 150 600 latch_world (recv (line "010000") init)
                torn_schedule (line "110000") (wf_recv _ _ wf_init)) as H.
  cbv zeta in H. destruct H as ((H1 & _) & _ & _ & H4).
  split; [exact H1|]. apply H4; [lia | reflexivity].
Defined.

(** C3 as the specification words it, at every end of a cycle.  The line
    "000000" has been received; while the cycle ends, the receive task
    decodes "110000": it stores entry 0, the resync copies entries 0 and 1,
    and only then is entry 1 stored.  The cycle ends with the target
    [true; true; false; ...] and the latch [true; false; false; ...]. *)
Lemma torn_resync :
  ~ latch_equals_target 150 600 (quiet no_signal) torn_schedule (line "110000")
      (recv (line "000000") init).
Proof.
  unfold latch_equals_target. intros H. vm_compute in H. discriminate H.
Qed.

Lemma same_line_twice_no_motion_witness :
  let g1 := recv (line "010010") init in
  let g2 := post (loop 150 600 (quiet no_signal) g1) in
  let g3 := recv (line "010010") g2 in
  change g3 = true /\ state0 g3 = state0 g1 /\ state1 g3 = state0 g3 /\
  commands (out (loops 150 600 [quiet no_signal; touch_world] g3)) = [] /\
  change (post (loops 150 600 [quiet no_signal; touch_world] g3)) = true.
Proof.
  refine (same_line_twice_no_motion 150 600 init "010010" (quiet no_signal)
            [quiet no_signal; touch_world] wf_init eq_refl eq_refl _ _).
  - split; [intros i|]; reflexivity.
  - repeat constructor.
Defined.

Lemma overwrite_before_last_step_witness :
  let r1 := loop 150 600 (overwrite_at 10) (recv (line "000000") init) in
  let r2 := loop 150 600 (quiet no_signal) (post r1) in
  last_command thumb (out r1 ++ out r2) = Some (SetPWM thumb 0 (pulse 150 600 thumb true 130)) /\
  commands (out r2) = [] /\
  state0 (post r2) = all_flexed /\ state1 (post r2) = all_flexed.
Proof.
  refine (overwrite_before_last_step 150 600 (overwrite_at 10) (quiet no_signal) init
            [5] 10 (tl (tl motion_steps)) thumb
            wf_init eq_refl eq_refl eq_refl _ _ eq_refl _ eq_refl _ _ _).
  - discriminate.
  - intros i [<-|[]]. reflexivity.
  - intros i Hi. repeat (destruct Hi as [<-|Hi]; [reflexivity|]). destruct Hi.
  - intros i k _ Hk.
    assert (k = 0 \/ k = 1 \/ k = 2 \/ k = 3 \/ k = 4) as Hc by lia.
    destruct Hc as [->|[->|[->|[->| ->]]]]; reflexivity.
  - split; [intros i|]; reflexivity.
  - unfold thumb. lia.
Defined.

(** C5 as the specification words it.  The line "111111" arrives during the
    delay of the last step, before the cycle completes: the cycle ends by
    copying the new target into the latch, and neither this pass of [loop]
    nor the next one issues any command. *)
Lemma late_overwrite_moves_nothing :
  ~ second_line_wins 150 600 (overwrite_at 130) (quiet no_signal) init thumb.
Proof.
  unfold second_line_wins. cbv zeta. intros [i H].
  match type of H with
  | ?L = _ => assert (L = None) as E by (vm_compute; reflexivity); rewrite E in H
  end.
  discriminate H.
Qed.


Lemma tolerant_decode_witness :
  String.get (Z.to_nat 1) "1x" = Some "x"%char /\ WString.isdigit "x" = false /\
  rd (state0 (recv (line "1x") init)) 1 = false.
Proof.
  split; [reflexivity|]. split; [reflexivity|].
  refine (proj1 (proj2 (tolerant_decode init "1x" 1 wf_init eq_refl eq_refl _))
            "x"%char eq_refl eq_refl).
  lia.
Defined.

Lemma thumb_ramp_witness :
  moveFinger 150 600 thumb true 65 init =
  (tt, init, [SetPWM thumb 0 (nearest_integer (inject_Z 150 + 103 * inject_Z 65 / 130)%Q)]) /\
  nearest_integer (inject_Z 150 + 103 * inject_Z 65 / 130)%Q = 202.
Proof.
  split; [|reflexivity].
  refine (proj1 (thumb_ramp 150 600 65 init _ _ _)); [lia | lia |].
  unfold motion_steps. do 13 right. left. reflexivity.
Defined.

Lemma change_is_never_cleared_witness :
  change (post (loop 150 600 (quiet no_signal) (recv (line "100000") init))) = true.
Proof.
  refine (proj2 (proj2 (change_is_never_cleared 150 600 init _ "100000" wf_init _))).
  apply reach_loop, reach_here.
Defined.

(** C9 as the specification words it.  The line "100000" has been animated
    and nothing else has arrived, so no command is pending; the flag is
    still true. *)
Lemma flag_survives_the_cycle :
  ~ flag_cleared_after 150 600 (quiet no_signal) "100000".
Proof.
  intros H. assert (silent (quiet no_signal)) as Hs by (split; [intros i|]; reflexivity).
  specialize (H Hs). vm_compute in H. discriminate H.
Qed.

Lemma extra_characters_ignored_witness :
  state0 (recv (line (String.append "101010" "111")) init) = state0 (recv (line "101010") init).
Proof.
  exact (proj1 (extra_characters_ignored init "101010" "111" wf_init eq_refl eq_refl eq_refl eq_refl)).
Defined.

(** * Part V: further properties of the sketch *)

(** ** The receive task *)

Lemma append_empty_r (s : string) : String.append s EmptyString = s.
Proof. induction s as [|c s IH]; cbn [String.append]; [reflexivity | rewrite IH; reflexivity]. Qed.

Lemma sData_after_byte c g : sData (post (on_byte c g)) = c.
Proof.
  destruct (Ascii.eqb c newline) eqn:E.
  - apply Ascii.eqb_eq in E. subst c. rewrite on_newline. reflexivity.
  - rewrite (on_other c g E). reflexivity.
Qed.

Lemma burst_cut avail : forall g,
  burst avail g = (recv (fst (cut avail)) g, snd (cut avail)).
Proof.
  induction avail as [|c rest IH]; intros g; [reflexivity|].
  cbn [burst cut]. rewrite sData_after_byte.
  destruct (Ascii.eqb c newline) eqn:E; [reflexivity|].
  rewrite IH. reflexivity.
Qed.

Lemma cut_append s : String.append (fst (cut s)) (snd (cut s)) = s.
Proof.
  induction s as [|c rest IH]; [reflexivity|]. cbn [cut].
  destruct (Ascii.eqb c newline); cbn [fst snd String.append]; [reflexivity|].
  rewrite IH. reflexivity.
Qed.

Lemma cut_newline_free s : newline_free s = true -> cut s = (s, EmptyString).
Proof.
  induction s as [|c rest IH]; intros H; [reflexivity|].
  cbn [newline_free] in H. apply andb_prop in H. destruct H as [Hc Hr].
  apply negb_true_iff in Hc. cbn [cut]. rewrite Hc, (IH Hr). reflexivity.
Qed.

Lemma cut_line text rest :
  newline_free text = true -> cut (String.append (line text) rest) = (line text, rest).
Proof.
  induction text as [|c text IH]; intros H.
  - reflexivity.
  - cbn [newline_free] in H. apply andb_prop in H. destruct H as [Hc Hr].
    apply negb_true_iff in Hc. unfold line in *. cbn [String.append cut]. rewrite Hc.
    rewrite (IH Hr). reflexivity.
Qed.

(** X1. A polling burst handles the waiting bytes one by one and ends with
    the first terminator: a complete line followed by more bytes is decoded
    and the rest is left unread for the next burst, so that a burst decodes
    at most one line; bytes without a terminator are all consumed. *)
Theorem burst_stops_at_terminator (text rest : string) (g : Globals) :
  newline_free text = true ->
  burst (String.append (line text) rest) g = (recv (line text) g, rest) /\
  burst text g = (recv text g, EmptyString).
Proof.
  intros H. rewrite !burst_cut, (cut_line text rest H), (cut_newline_free text H).
  split; reflexivity.
Qed.

(** X2. However the bytes arrive over the rounds of the task, none is lost,
    duplicated or reordered: the globals after the rounds are those of
    handling, byte by byte, the part of the stream consumed so far, and the
    bytes still unread are the remainder of the stream. *)
Theorem poll_is_recv (arrivals : list string) :
  forall (pending : string) (g : Globals),
  exists consumed,
    fst (poll arrivals pending g) = recv consumed g /\
    String.append consumed (snd (poll arrivals pending g)) =
    String.append pending (join arrivals).
Proof.
  induction arrivals as [|a later IH]; intros pending g.
  - exists EmptyString. split; [reflexivity|]. cbn [poll join snd String.append].
    symmetry. apply append_empty_r.
  - cbn [poll join]. rewrite burst_cut. cbn [fst snd].
    destruct (IH (snd (cut (String.append pending a)))
                 (recv (fst (cut (String.append pending a))) g)) as (consumed & H1 & H2).
    exists (String.append (fst (cut (String.append pending a))) consumed). split.
    + rewrite recv_app. exact H1.
    + rewrite append_assoc, H2, <- append_assoc, cut_append, append_assoc. reflexivity.
Qed.

(** X3. Bytes other than the terminator only grow the buffer, by exactly
    these bytes: neither the target, nor the latch, nor the flag, nor the hall
    table changes before the terminator arrives. *)
Theorem fragment_only_grows_buffer (bytes : string) (g : Globals) :
  newline_free bytes = true ->
  state (recv bytes g) = String.append (state g) bytes /\
  state0 (recv bytes g) = state0 g /\ state1 (recv bytes g) = state1 g /\
  change (recv bytes g) = change g /\ hall (recv bytes g) = hall g.
Proof.
  intros H. destruct (recv_newline_free bytes g H) as (H0 & H1 & H2 & H3 & H4).
  repeat split; assumption.
Qed.

(** X4. What is left in the buffer belongs to the next line: a line is
    decoded from the buffer followed by its own text, so position [p] of
    the target comes from character [p] of that concatenation, and a
    leftover fragment shifts the digits of the line. *)
Theorem leftover_shifts_line (g : Globals) (text : string) (p : Z) :
  wf g -> newline_free text = true -> 0 <= p < 6 ->
  rd (state0 (recv (line text) g)) p =
  flag_of (String.get (Z.to_nat p) (String.append (state g) text)).
Proof.
  intros Hg Hnl Hp. destruct (recv_line text g Hnl) as (A0 & _).
  rewrite A0. apply decoded_lookup; [apply Hg | exact Hp].
Qed.

(** X5. Every line rewrites all six targets: of two lines received one
    after the other the target is that of the second line alone, whatever
    the target and the buffer were before the first. *)
Theorem last_line_wins (g : Globals) (first second : string) :
  wf g -> newline_free first = true -> newline_free second = true ->
  state0 (recv (String.append (line first) (line second)) g) =
  List.map (fun p => flag_of (String.get p second)) [0; 1; 2; 3; 4; 5]%nat.
Proof.
  intros Hg H1 H2. rewrite recv_app.
  destruct (recv_line first g H1) as (_ & _ & _ & _ & A4).
  pose proof (wf_recv (line first) g Hg) as Hg1.
  destruct (recv_line second (recv (line first) g) H2) as (B0 & _).
  rewrite B0, A4. cbn [String.append]. rewrite (decoded_full _ _ (proj1 Hg1)).
  cbn [List.map]. rewrite !decode_at_spec. reflexivity.
Qed.

(** X6. [setup] configures as inputs exactly the five pins that the sensor
    gate reads, in the order in which every motion step reads them. *)
Theorem setup_configures_the_gate_pins (w : World) (i : Z) (g g' : Globals) :
  wf g -> wf g' ->
  List.map AnalogRead (input_pins (setup g)) = out (sensor_gate w i g').
Proof.
  intros (_ & _ & r0 & r1 & r2 & r3 & r4 & Hh) Hg'.
  rewrite (sensor_gate_run w i g' Hg'), out_triple.
  unfold setup. rewrite Hh. reflexivity.
Qed.

(** ** [degToPwm] and [moveFinger] *)

Lemma degToPwm_range SERVOMIN SERVOMAX d :
  0 <= SERVOMIN <= 4095 -> 0 <= SERVOMAX <= 4095 -> 0 <= d <= 320 ->
  Z.min SERVOMIN SERVOMAX <= degToPwm SERVOMIN SERVOMAX d <= Z.max SERVOMIN SERVOMAX.
Proof.
  intros Hmin Hmax Hd. rewrite degToPwm_exact by assumption.
  destruct (Z.le_gt_cases SERVOMIN SERVOMAX) as [H|H].
  - assert (0 <= Z.quot (d * (SERVOMAX - SERVOMIN)) 320 <= SERVOMAX - SERVOMIN) as [L U].
    { split.
      - apply Z.quot_pos; nia.
      - rewrite <- (Z.quot_mul (SERVOMAX - SERVOMIN) 320) at 2 by lia.
        apply Z.quot_le_mono; nia. }
    lia.
  - assert (SERVOMAX - SERVOMIN <= Z.quot (d * (SERVOMAX - SERVOMIN)) 320 <= 0) as [L U].
    { split.
      - rewrite <- (Z.quot_mul (SERVOMAX - SERVOMIN) 320) at 1 by lia.
        apply Z.quot_le_mono; nia.
      - replace 0 with (Z.quot 0 320) by reflexivity. apply Z.quot_le_mono; nia. }
    lia.
Qed.

(** X7. For calibration values of the 12-bit driver, 0 .. 4095, [degToPwm]
    maps 0 degrees to [SERVOMIN] and 320 degrees to [SERVOMAX], and every
    angle in between to a pulse width between the two, whichever of the two
    is the larger; no step of the [long] arithmetic of [map] overflows
    there. *)
Theorem degToPwm_between (SERVOMIN SERVOMAX d : Z) :
  0 <= SERVOMIN <= 4095 -> 0 <= SERVOMAX <= 4095 -> 0 <= d <= 320 ->
  Z.min SERVOMIN SERVOMAX <= degToPwm SERVOMIN SERVOMAX d <= Z.max SERVOMIN SERVOMAX /\
  degToPwm SERVOMIN SERVOMAX 0 = SERVOMIN /\
  degToPwm SERVOMIN SERVOMAX 320 = SERVOMAX.
Proof.
  intros Hmin Hmax Hd. split; [apply degToPwm_range; assumption|].
  rewrite !degToPwm_exact by lia. split.
  - reflexivity.
  - rewrite (Z.mul_comm 320), Z.quot_mul by lia. lia.
Qed.

(** X8. For calibration values in 0 .. 4095 and angles in 0 .. 320: with
    [SERVOMIN <= SERVOMAX] the pulse width grows with the angle, so the four
    calibrated bases are ordered as their angles 75, 85, 95 and 180; with
    the two macros the other way round it shrinks. *)
Theorem degToPwm_monotone (SERVOMIN SERVOMAX d1 d2 : Z) :
  0 <= SERVOMIN <= 4095 -> 0 <= SERVOMAX <= 4095 ->
  0 <= d1 -> d1 <= d2 -> d2 <= 320 ->
  (SERVOMIN <= SERVOMAX ->
   degToPwm SERVOMIN SERVOMAX d1 <= degToPwm SERVOMIN SERVOMAX d2 /\
   deg SERVOMIN SERVOMAX <= deg2 SERVOMIN SERVOMAX <= deg1 SERVOMIN SERVOMAX /\
   deg1 SERVOMIN SERVOMAX <= startDeg SERVOMIN SERVOMAX) /\
  (SERVOMAX <= SERVOMIN ->
   degToPwm SERVOMIN SERVOMAX d2 <= degToPwm SERVOMIN SERVOMAX d1).
Proof.
  intros Hmin Hmax H0 Hd H320. split; intros H.
  - assert (forall a b, 0 <= a -> a <= b -> b <= 320 ->
              degToPwm SERVOMIN SERVOMAX a <= degToPwm SERVOMIN SERVOMAX b) as M.
    { intros a b Ha Hab Hb. rewrite !degToPwm_exact by lia.
      apply Z.add_le_mono_r, Z.quot_le_mono; nia. }
    split; [apply M; assumption|]. unfold deg, deg1, deg2, startDeg.
    split; [split|]; apply M; lia.
  - rewrite !degToPwm_exact by lia. apply Z.add_le_mono_r, Z.quot_le_mono; nia.
Qed.

(** X9. For every finger but the thumb the command is a ramp of slope one
    in the iteration, with no rounding: advancing the iteration by [d]
    moves the pulse by exactly [d], upwards when flexing wrist, index or
    middle and when extending ring or pinky, downwards otherwise.  This is
    for calibration values in 0 .. 4095 and iterations in 0 .. 130, the
    range of the loop of line 111, where the [int] arithmetic does not
    overflow. *)
Theorem linear_ramps (SERVOMIN SERVOMAX j i d : Z) (flex : bool) (g : Globals) :
  0 <= SERVOMIN <= 4095 -> 0 <= SERVOMAX <= 4095 ->
  0 <= i <= 130 -> 0 <= i + d <= 130 -> j <> thumb ->
  exists v,
    moveFinger SERVOMIN SERVOMAX j flex i g = (tt, g, [SetPWM j 0 v]) /\
    moveFinger SERVOMIN SERVOMAX j flex (i + d) g =
    (tt, g, [SetPWM j 0 (if rising j flex then v + d else v - d)]).
Proof.
  intros Hmin Hmax Hi Hid Hj. apply Z.eqb_neq in Hj.
  exists (pulse SERVOMIN SERVOMAX j flex i).
  rewrite !moveFinger_run. split; [reflexivity|]. do 3 f_equal.
  assert (0 <= deg1 SERVOMIN SERVOMAX <= 4095) as B1
    by (unfold deg1; pose proof (degToPwm_range SERVOMIN SERVOMAX 95 Hmin Hmax); lia).
  assert (0 <= deg2 SERVOMIN SERVOMAX <= 4095) as B2
    by (unfold deg2; pose proof (degToPwm_range SERVOMIN SERVOMAX 85 Hmin Hmax); lia).
  assert (0 <= startDeg SERVOMIN SERVOMAX <= 4095) as B3
    by (unfold startDeg; pose proof (degToPwm_range SERVOMIN SERVOMAX 180 Hmin Hmax); lia).
  unfold pulse, rising, Int32.add, Int32.sub. cbv zeta. rewrite Hj.
  destruct (j =? ring), (j =? pinky), flex; cbn [negb andb orb xorb];
    rewrite !wrap_small by lia; lia.
Qed.

Lemma nearest_quotient_mono n n' :
  n <= n' -> nearest_quotient n 130 <= nearest_quotient n' 130.
Proof.
  intros H. unfold nearest_quotient.
  destruct (Z.leb_spec 0 n), (Z.leb_spec 0 n'); try lia.
  - apply Z.div_le_mono; lia.
  - pose proof (Z.div_pos (2 * - n + 130) (2 * 130) ltac:(lia) ltac:(lia)).
    pose proof (Z.div_pos (2 * n' + 130) (2 * 130) ltac:(lia) ltac:(lia)). lia.
  - apply Z.opp_le_mono. rewrite !Z.opp_involutive. apply Z.div_le_mono; lia.
Qed.

Lemma nearest_quotient_shift b c :
  0 < c < 130 -> nearest_quotient (130 * b + c - 65) 130 = b.
Proof.
  intros Hc. unfold nearest_quotient. destruct (Z.leb_spec 0 (130 * b + c - 65)).
  - symmetry. apply Z.div_unique with (r := 2 * c); lia.
  - assert ((2 * - (130 * b + c - 65) + 130) / (2 * 130) = - b) as ->; [|lia].
    symmetry. apply Z.div_unique with (r := 2 * (130 - c)); lia.
Qed.

(** X10. The thumb never leaves its calibrated span and never moves
    backwards: over the iterations 0, 5, ..., 130 the flex command grows from
    [SERVOMIN] to at most [SERVOMIN + 103], and the extend command falls
    from [deg] to at least [deg - 103].  The calibration values are pulse
    widths of the 12-bit driver, 0 .. 4095. *)
Theorem thumb_stays_in_span (SERVOMIN SERVOMAX i i' : Z) (g : Globals) :
  0 <= SERVOMIN <= 4095 -> 0 <= SERVOMAX <= 4095 ->
  In i (0 :: motion_steps) -> In i' (0 :: motion_steps) -> i <= i' ->
  exists f f' e e',
    moveFinger SERVOMIN SERVOMAX thumb true i g = (tt, g, [SetPWM thumb 0 f]) /\
    moveFinger SERVOMIN SERVOMAX thumb true i' g = (tt, g, [SetPWM thumb 0 f']) /\
    moveFinger SERVOMIN SERVOMAX thumb false i g = (tt, g, [SetPWM thumb 0 e]) /\
    moveFinger SERVOMIN SERVOMAX thumb false i' g = (tt, g, [SetPWM thumb 0 e']) /\
    SERVOMIN <= f <= f' /\ f' <= SERVOMIN + 103 /\
    deg SERVOMIN SERVOMAX - 103 <= e' <= e /\ e <= deg SERVOMIN SERVOMAX.
Proof.
  intros Hmin Hmax Hi Hi' Hle. pose proof (deg_in_range SERVOMIN SERVOMAX Hmin Hmax) as Hdeg.
  pose proof (ramp_iterations_bounds i Hi) as Bi.
  pose proof (ramp_iterations_bounds i' Hi') as Bi'.
  assert (forall k, pulse SERVOMIN SERVOMAX thumb true k =
                    Float32.round (Float32.add (Float32.of_int SERVOMIN) (scaled k))) as Ef
    by reflexivity.
  assert (forall k, pulse SERVOMIN SERVOMAX thumb false k =
                    Float32.round (Float32.sub (Float32.of_int (deg SERVOMIN SERVOMAX)) (scaled k)))
    as Ee by reflexivity.
  exists (pulse SERVOMIN SERVOMAX thumb true i), (pulse SERVOMIN SERVOMAX thumb true i'),
         (pulse SERVOMIN SERVOMAX thumb false i), (pulse SERVOMIN SERVOMAX thumb false i').
  rewrite !moveFinger_run.
  do 4 (split; [reflexivity|]).
  rewrite !Ef, !Ee, !thumb_flex_exact, !thumb_extend_exact by assumption.
  pose proof (nearest_quotient_shift SERVOMIN 65 ltac:(lia)) as L.
  pose proof (nearest_quotient_shift (SERVOMIN + 103) 65 ltac:(lia)) as U.
  pose proof (nearest_quotient_shift (deg SERVOMIN SERVOMAX) 65 ltac:(lia)) as L'.
  pose proof (nearest_quotient_shift (deg SERVOMIN SERVOMAX - 103) 65 ltac:(lia)) as U'.
  repeat split.
  - apply Z.le_trans with (nearest_quotient (130 * SERVOMIN + 65 - 65) 130);
      [rewrite L; lia | apply nearest_quotient_mono; lia].
  - apply nearest_quotient_mono. lia.
  - apply Z.le_trans with (nearest_quotient (130 * (SERVOMIN + 103) + 65 - 65) 130);
      [apply nearest_quotient_mono; lia | rewrite U; lia].
  - apply Z.le_trans with (nearest_quotient (130 * (deg SERVOMIN SERVOMAX - 103) + 65 - 65) 130);
      [rewrite U'; lia | apply nearest_quotient_mono; lia].
  - apply nearest_quotient_mono. lia.
  - apply Z.le_trans with (nearest_quotient (130 * deg SERVOMIN SERVOMAX + 65 - 65) 130);
      [apply nearest_quotient_mono; lia | rewrite L'; lia].
Qed.

(** ** The sensor gate and the cycle *)

Lemma filter_no_channel j tr :
  Forall (fun e => on_channel j e = false) tr -> List.filter (on_channel j) tr = [].
Proof.
  intros H. induction H as [|e tr He _ IH]; cbn [List.filter]; [reflexivity|].
  rewrite He. exact IH.
Qed.

Lemma total_delay_app tr1 tr2 : total_delay (tr1 ++ tr2) = total_delay tr1 + total_delay tr2.
Proof.
  induction tr1 as [|e tr1 IH]; [reflexivity|].
  destruct e; cbn [app total_delay]; rewrite IH; lia.
Qed.

Lemma total_delay_commands tr :
  Forall (fun e => is_command e = true) tr -> total_delay tr = 0.
Proof.
  intros H. induction H as [|e tr He _ IH]; [reflexivity|].
  destruct e; try discriminate He. exact IH.
Qed.

Lemma reads_commands tr :
  Forall (fun e => is_command e = true) tr -> List.filter is_read tr = [].
Proof.
  intros H. induction H as [|e tr He _ IH]; [reflexivity|].
  destruct e; try discriminate He. exact IH.
Qed.

Section Further.

Variables SERVOMIN SERVOMAX : Z.

Lemma moves_are_commands i a b :
  Forall (fun e => is_command e = true) (moves SERVOMIN SERVOMAX i a b).
Proof.
  eapply Forall_impl; [apply moves_shape|]. intros e (j & flex & ->). reflexivity.
Qed.

(** The commands of one [j] loop on channel [j]: one if target and latch
    differ, none otherwise. *)
Lemma filter_moves i a b j :
  0 <= j < 6 ->
  List.filter (on_channel j) (moves SERVOMIN SERVOMAX i a b) =
  if negb (Bool.eqb (rd a j) (rd b j))
  then [SetPWM j 0 (pulse SERVOMIN SERVOMAX j (rd a j) i)] else [].
Proof.
  intros Hj.
  assert (j = 0 \/ j = 1 \/ j = 2 \/ j = 3 \/ j = 4 \/ j = 5) as Hc by lia.
  unfold moves. cbn [flat_map].
  destruct Hc as [->|[->|[->|[->|[->| ->]]]]];
    destruct (negb (Bool.eqb (rd a 0) (rd b 0))), (negb (Bool.eqb (rd a 1) (rd b 1))),
             (negb (Bool.eqb (rd a 2) (rd b 2))), (negb (Bool.eqb (rd a 3) (rd b 3))),
             (negb (Bool.eqb (rd a 4) (rd b 4))), (negb (Bool.eqb (rd a 5) (rd b 5)));
    reflexivity.
Qed.

Lemma filter_step w i g j :
  wf g -> 0 <= j < 6 ->
  List.filter (on_channel j) (out (motion_step SERVOMIN SERVOMAX w i g)) =
  if differs g j && negb (gate_hit w i j)
  then [SetPWM j 0 (pulse SERVOMIN SERVOMAX j (rd (state0 g) j) i)] else [].
Proof.
  intros Hg Hj. rewrite (motion_step_run SERVOMIN SERVOMAX w i g Hg), out_triple.
  rewrite !List.filter_app, (filter_no_channel j reads (reads_no_channel j)).
  cbn [List.filter on_channel app]. rewrite app_nil_r, (filter_moves i _ _ j Hj).
  destruct Hg as (H0 & H1 & _).
  rewrite (latched_lookup _ _ _ j H0 H1 Hj). unfold differs, gate_hit.
  destruct ((1 <=? j) && exceeds w i (j - 1)).
  - rewrite Bool.eqb_reflx, andb_false_r. reflexivity.
  - rewrite andb_true_r. reflexivity.
Qed.

Lemma after_step w i g j :
  wf g -> 0 <= j < 6 -> newline_free (rx17 w i) = true ->
  state0 (post (motion_step SERVOMIN SERVOMAX w i g)) = state0 g /\
  differs (post (motion_step SERVOMIN SERVOMAX w i g)) j =
  differs g j && negb (gate_hit w i j).
Proof.
  intros Hg Hj Hn. rewrite (motion_step_run SERVOMIN SERVOMAX w i g Hg), post_triple.
  destruct (recv_newline_free (rx17 w i) (gated w i g) Hn) as (K0 & K1 & _).
  unfold differs. rewrite K0, K1. cbn [gated state0 state1].
  split; [reflexivity|]. destruct Hg as (H0 & H1 & _).
  rewrite (latched_lookup _ _ _ j H0 H1 Hj). unfold gate_hit.
  destruct ((1 <=? j) && exceeds w i (j - 1)).
  - rewrite Bool.eqb_reflx, andb_false_r. reflexivity.
  - rewrite andb_true_r. reflexivity.
Qed.

Lemma finger_commands_steps w j l : forall g,
  wf g -> 0 <= j < 6 -> (forall i, In i l -> newline_free (rx17 w i) = true) ->
  List.filter (on_channel j) (out (for_each l (motion_step SERVOMIN SERVOMAX w) g)) =
  if differs g j
  then List.map (fun i => SetPWM j 0 (pulse SERVOMIN SERVOMAX j (rd (state0 g) j) i))
                (steps_before (fun i => gate_hit w i j) l)
  else [].
Proof.
  induction l as [|i l IH]; intros g Hg Hj Hn.
  - cbn [for_each steps_before List.map]. destruct (differs g j); reflexivity.
  - rewrite out_for_each_cons, List.filter_app, (filter_step w i g j Hg Hj).
    destruct (after_step w i g j Hg Hj (Hn i (or_introl eq_refl))) as (E0 & Ed).
    rewrite (IH _ (wf_motion_step SERVOMIN SERVOMAX w i g Hg) Hj
               (fun k Hk => Hn k (or_intror Hk))), E0, Ed.
    cbn [steps_before]. destruct (differs g j), (gate_hit w i j); reflexivity.
Qed.

(** X11. The sensor gate of a step reads the five sensors once each, in the
    order of the pins 26, 27, 14, 25, 12, and stores the readings; it makes
    the latch of finger [j] equal to its target when the sensor of that
    finger reads strictly above its threshold, and leaves it alone
    otherwise (always so for the wrist, which has no sensor, and for a
    reading equal to the threshold); it writes neither the target, nor the
    flag, nor the buffer, nor a pin or a threshold. *)
Theorem sensor_gate_effect (w : World) (i j : Z) (g : Globals) :
  wf g -> 0 <= j < 6 ->
  out (sensor_gate w i g) = List.map AnalogRead [26; 27; 14; 25; 12] /\
  rd (state1 (post (sensor_gate w i g))) j =
    (if (1 <=? j) && (adc w i (pin_of (j - 1)) >? threshold_of (j - 1))
     then rd (state0 g) j else rd (state1 g) j) /\
  state0 (post (sensor_gate w i g)) = state0 g /\
  change (post (sensor_gate w i g)) = change g /\
  state (post (sensor_gate w i g)) = state g /\
  (forall k, 0 <= k < 5 ->
     rd2 (hall (post (sensor_gate w i g))) k 0 = pin_of k /\
     rd2 (hall (post (sensor_gate w i g))) k 1 = adc w i (pin_of k) /\
     rd2 (hall (post (sensor_gate w i g))) k 2 = threshold_of k).
Proof.
  intros Hg Hj. rewrite (sensor_gate_run w i g Hg), post_triple, out_triple.
  destruct Hg as (H0 & H1 & _).
  split; [reflexivity|]. split; [exact (latched_lookup _ _ _ j H0 H1 Hj)|].
  do 3 (split; [reflexivity|]).
  intros k Hk. assert (k = 0 \/ k = 1 \/ k = 2 \/ k = 3 \/ k = 4) as Hc by lia.
  destruct Hc as [->|[->|[->|[->| ->]]]]; repeat split.
Qed.

(** X12. What one finger gets in a whole cycle, when no line is completed
    during it: nothing if its target equals its latch; otherwise one command
    in its target direction in every motion step before the first step in
    which its sensor reads above the threshold, and nothing from that step
    on.  The wrist, having no sensor, is commanded in all 26 steps. *)
Theorem finger_commands_in_cycle (w : World) (g : Globals) (j : Z) :
  wf g -> 0 <= j < 6 -> (forall i, newline_free (rx17 w i) = true) ->
  List.filter (on_channel j) (out (animate SERVOMIN SERVOMAX w g)) =
  (if differs g j
   then List.map (fun i => SetPWM j 0 (pulse SERVOMIN SERVOMAX j (rd (state0 g) j) i))
                 (steps_before (fun i => gate_hit w i j) motion_steps)
   else []) /\
  steps_before (fun i => gate_hit w i 0) motion_steps = motion_steps.
Proof.
  intros Hg Hj Hn. split; [|reflexivity].
  rewrite (animate_run SERVOMIN SERVOMAX w g Hg), out_triple.
  apply finger_commands_steps; [exact Hg | exact Hj | intros i _; apply Hn].
Qed.

(** X13. In one motion step a finger gets at most one command, and no
    channel other than the six fingers' gets any. *)
Theorem one_command_per_step (w : World) (i j : Z) (g : Globals) :
  wf g ->
  (length (List.filter (on_channel j) (out (motion_step SERVOMIN SERVOMAX w i g))) <= 1)%nat /\
  (~ 0 <= j < 6 ->
   List.filter (on_channel j) (out (motion_step SERVOMIN SERVOMAX w i g)) = []).
Proof.
  intros Hg.
  assert (~ 0 <= j < 6 ->
          List.filter (on_channel j) (out (motion_step SERVOMIN SERVOMAX w i g)) = []) as Hout.
  { intros Hj. rewrite (motion_step_run SERVOMIN SERVOMAX w i g Hg), out_triple.
    apply filter_no_channel, Forall_app. split; [apply reads_no_channel|].
    apply Forall_app. split; [|repeat constructor].
    unfold moves. apply Forall_flat_map.
    repeat (constructor;
            [destruct (negb _); repeat constructor; cbn [on_channel]; apply Z.eqb_neq; lia|]).
    constructor. }
  split; [|exact Hout].
  destruct (Z.le_gt_cases 0 j) as [L|L]; [destruct (Z.lt_ge_cases j 6) as [U|U]|].
  - rewrite (filter_step w i g j Hg (conj L U)). destruct (_ && _); cbn [length]; lia.
  - rewrite Hout by lia. cbn [length]. lia.
  - rewrite Hout by lia. cbn [length]. lia.
Qed.

Lemma steps_time w l : forall g,
  wf g ->
  total_delay (out (for_each l (motion_step SERVOMIN SERVOMAX w) g)) = 17 * Z.of_nat (length l) /\
  length (List.filter is_read (out (for_each l (motion_step SERVOMIN SERVOMAX w) g))) =
  (5 * length l)%nat.
Proof.
  induction l as [|i l IH]; intros g Hg; [split; reflexivity|].
  rewrite out_for_each_cons, total_delay_app, List.filter_app, length_app.
  destruct (IH _ (wf_motion_step SERVOMIN SERVOMAX w i g Hg)) as (T & R). rewrite T, R.
  rewrite (motion_step_run SERVOMIN SERVOMAX w i g Hg), out_triple.
  rewrite !total_delay_app, !List.filter_app, !length_app.
  rewrite (total_delay_commands _ (moves_are_commands i _ _)),
          (reads_commands _ (moves_are_commands i _ _)).
  cbn [total_delay reads List.filter is_read length app]. split; lia.
Qed.

(** X14. A pass of [loop] that finds the flag set reads the sensors 130
    times and sleeps 26 times 17 ms and then 100 ms, 542 ms in all, whatever
    the sensors read and whichever fingers move; a pass that finds it clear
    reads no sensor and sleeps 100 ms. *)
Theorem pass_duration (w : World) (g : Globals) :
  wf g ->
  total_delay (out (loop SERVOMIN SERVOMAX w g)) = (if change g then 542 else 100) /\
  length (List.filter is_read (out (loop SERVOMIN SERVOMAX w g))) =
  (if change g then 130 else 0)%nat.
Proof.
  intros Hg. destruct (change g) eqn:Hc.
  - rewrite (loop_run SERVOMIN SERVOMAX w g Hg Hc), (animate_run SERVOMIN SERVOMAX w g Hg),
            !out_triple, total_delay_app, List.filter_app, length_app.
    destruct (steps_time w motion_steps g Hg) as (T & R). rewrite T, R. split; reflexivity.
  - rewrite (loop_idle SERVOMIN SERVOMAX w g Hc), out_triple. split; reflexivity.
Qed.

(** X15. Until the first line is completed the hand stays as it is: while
    the flag is clear, every pass of [loop] is a [delay(100)] and nothing
    else, with no sensor read and no actuator command, and the flag stays
    clear. *)
Theorem idle_until_first_line (ws : list World) :
  forall g : Globals,
  change g = false -> Forall no_new_line ws ->
  out (loops SERVOMIN SERVOMAX ws g) = List.map (fun _ => Delay 100) ws /\
  change (post (loops SERVOMIN SERVOMAX ws g)) = false /\
  state0 (post (loops SERVOMIN SERVOMAX ws g)) = state0 g /\
  state1 (post (loops SERVOMIN SERVOMAX ws g)) = state1 g.
Proof.
  induction ws as [|w ws IH]; intros g Hc Hws.
  - repeat split. exact Hc.
  - inversion Hws as [|? ? [_ Hw] Hws']; subst. cbn [loops List.map].
    rewrite post_bind, out_bind, (loop_idle SERVOMIN SERVOMAX w g Hc), post_triple, out_triple.
    destruct (recv_newline_free (rx100 w) g Hw) as (K0 & K1 & K2 & _).
    destruct (IH (recv (rx100 w) g)) as (I0 & I1 & I2 & I3); [congruence | exact Hws'|].
    rewrite I0, I1, I2, I3, K0, K1. repeat split.
Qed.

(** X16. The main lane never writes the target, the buffer or the flag:
    over any number of passes of [loop] during which no byte arrives, the
    three are what they were. *)
Theorem loop_keeps_the_command (ws : list World) :
  forall g : Globals,
  wf g -> Forall silent ws ->
  state0 (post (loops SERVOMIN SERVOMAX ws g)) = state0 g /\
  state (post (loops SERVOMIN SERVOMAX ws g)) = state g /\
  change (post (loops SERVOMIN SERVOMAX ws g)) = change g.
Proof.
  induction ws as [|w ws IH]; intros g Hg Hws; [repeat split|].
  inversion Hws as [|? ? Hw Hws']; subst. cbn [loops]. rewrite post_bind.
  destruct (silent_loop SERVOMIN SERVOMAX w g Hg Hw) as (K0 & K1 & K2).
  destruct (IH _ (wf_loop SERVOMIN SERVOMAX w g Hg) Hws') as (I0 & I1 & I2).
  rewrite I0, I1, I2. repeat split; assumption.
Qed.

(** X17. Whatever the two lanes do, the arrays keep their sizes and the
    hall table keeps its pins and thresholds: every state reached from the
    initial one has six targets, six latches and the five rows of line 18
    with only their readings changed. *)
Theorem reachable_states_are_well_formed (g : Globals) :
  reach SERVOMIN SERVOMAX init g ->
  length (state0 g) = 6%nat /\ length (state1 g) = 6%nat /\
  (forall k, 0 <= k < 5 ->
     rd2 (hall g) k 0 = pin_of k /\ rd2 (hall g) k 2 = threshold_of k) /\
  length (hall g) = 5%nat.
Proof.
  intros H. assert (wf g) as (H0 & H1 & r0 & r1 & r2 & r3 & r4 & Hh).
  { induction H as [|g' bytes _ IH|g' w _ IH];
      [apply wf_init | apply wf_recv, IH | apply wf_loop, IH]. }
  split; [exact H0|]. split; [exact H1|]. rewrite Hh. split; [|reflexivity].
  intros k Hk. assert (k = 0 \/ k = 1 \/ k = 2 \/ k = 3 \/ k = 4) as Hc by lia.
  destruct Hc as [->|[->|[->|[->| ->]]]]; split; reflexivity.
Qed.

(** X18. From a line to the servos.  A line received with an empty buffer
    moves, in the pass of [loop] that follows, exactly the fingers whose
    digit differs from their latch, each in the direction of its digit and
    up to the step in which its sensor first reads above the threshold;
    the fingers whose digit equals their latch get no command. *)
Theorem line_moves_changed_fingers (w : World) (g : Globals) (text : string) (j : Z) :
  wf g -> state g = EmptyString -> newline_free text = true -> 0 <= j < 6 ->
  (forall i, newline_free (rx17 w i) = true) ->
  List.filter (on_channel j) (out (loop SERVOMIN SERVOMAX w (recv (line text) g))) =
  if negb (Bool.eqb (flag_of (String.get (Z.to_nat j) text)) (rd (state1 g) j))
  then List.map (fun i => SetPWM j 0
                   (pulse SERVOMIN SERVOMAX j (flag_of (String.get (Z.to_nat j) text)) i))
                (steps_before (fun i => gate_hit w i j) motion_steps)
  else [].
Proof.
  intros Hg Hbuf Hnl Hj Hn.
  pose proof (wf_recv (line text) g Hg) as Hg1.
  pose proof (line_decoded text g j Hg Hbuf Hnl Hj) as E0.
  destruct (recv_frame (line text) g) as (_ & E1 & _).
  rewrite (loop_run SERVOMIN SERVOMAX w _ Hg1 (line_sets_change text g)),
          (animate_run SERVOMIN SERVOMAX w _ Hg1), !out_triple, List.filter_app.
  cbn [List.filter on_channel]. rewrite app_nil_r.
  rewrite (finger_commands_steps w j motion_steps _ Hg1 Hj (fun i _ => Hn i)).
  unfold differs. rewrite E0, E1. reflexivity.
Qed.

End Further.

(** ** The further properties at concrete inputs *)

Lemma burst_stops_at_terminator_witness :
  burst (String.append (line "101010") "11") init = (recv (line "101010") init, "11") /\
  burst "101010" init = (recv "101010" init, EmptyString).
Proof. exact (burst_stops_at_terminator "101010" "11" init eq_refl). Defined.

Lemma fragment_only_grows_buffer_witness :
  state (recv "1010" init) = String.append (state init) "1010" /\
  state0 (recv "1010" init) = state0 init /\ state1 (recv "1010" init) = state1 init /\
  change (recv "1010" init) = change init /\ hall (recv "1010" init) = hall init.
Proof. exact (fragment_only_grows_buffer "1010" init eq_refl). Defined.

Lemma leftover_shifts_line_witness :
  rd (state0 (recv (line "010000") (recv "9" init))) 0 =
  flag_of (String.get (Z.to_nat 0) (String.append (state (recv "9" init)) "010000")).
Proof.
  refine (leftover_shifts_line (recv "9" init) "010000" 0 (wf_recv _ _ wf_init) eq_refl _).
  lia.
Defined.

Lemma last_line_wins_witness :
  state0 (recv (String.append (line "111111") (line "010000")) init) =
  List.map (fun p => flag_of (String.get p "010000")) [0; 1; 2; 3; 4; 5]%nat.
Proof. exact (last_line_wins init "111111" "010000" wf_init eq_refl eq_refl). Defined.

Lemma setup_configures_the_gate_pins_witness :
  List.map AnalogRead (input_pins (setup init)) =
  out (sensor_gate touch_world 5 (recv (line "010000") init)).
Proof.
  exact (setup_configures_the_gate_pins touch_world 5 init (recv (line "010000") init)
           wf_init (wf_recv _ _ wf_init)).
Defined.

Lemma degToPwm_between_witness :
  Z.min 150 600 <= degToPwm 150 600 75 <= Z.max 150 600 /\
  degToPwm 150 600 0 = 150 /\ degToPwm 150 600 320 = 600.
Proof. refine (degToPwm_between 150 600 75 _ _ _); lia. Defined.

Lemma degToPwm_monotone_witness :
  (degToPwm 150 600 75 <= degToPwm 150 600 95 /\
   deg 150 600 <= deg2 150 600 <= deg1 150 600 /\ deg1 150 600 <= startDeg 150 600) /\
  degToPwm 600 150 95 <= degToPwm 600 150 75.
Proof.
  split.
  - refine (proj1 (degToPwm_monotone 150 600 75 95 _ _ _ _ _) _); lia.
  - refine (proj2 (degToPwm_monotone 600 150 75 95 _ _ _ _ _) _); lia.
Defined.

Lemma linear_ramps_witness :
  exists v,
    moveFinger 150 600 ring true 5 init = (tt, init, [SetPWM ring 0 v]) /\
    moveFinger 150 600 ring true (5 + 5) init =
    (tt, init, [SetPWM ring 0 (if rising ring true then v + 5 else v - 5)]).
Proof.
  refine (linear_ramps 150 600 ring 5 5 true init _ _ _ _ _); try lia. discriminate.
Defined.

Lemma thumb_stays_in_span_witness :
  exists f f' e e',
    moveFinger 150 600 thumb true 5 init = (tt, init, [SetPWM thumb 0 f]) /\
    moveFinger 150 600 thumb true 10 init = (tt, init, [SetPWM thumb 0 f']) /\
    moveFinger 150 600 thumb false 5 init = (tt, init, [SetPWM thumb 0 e]) /\
    moveFinger 150 600 thumb false 10 init = (tt, init, [SetPWM thumb 0 e']) /\
    150 <= f <= f' /\ f' <= 150 + 103 /\
    deg 150 600 - 103 <= e' <= e /\ e <= deg 150 600.
Proof.
  refine (thumb_stays_in_span 150 600 5 10 init _ _ _ _ _); try lia.
  - right. left. reflexivity.
  - right. right. left. reflexivity.
Defined.

Lemma sensor_gate_effect_witness :
  rd (state1 (post (sensor_gate touch_world 5 (recv (line "010000") init)))) 1 =
  (if (1 <=? 1) && (adc touch_world 5 (pin_of (1 - 1)) >? threshold_of (1 - 1))
   then rd (state0 (recv (line "010000") init)) 1
   else rd (state1 (recv (line "010000") init)) 1).
Proof.
  refine (proj1 (proj2 (sensor_gate_effect touch_world 5 1 (recv (line "010000") init)
                          (wf_recv _ _ wf_init) _))).
  lia.
Defined.

Lemma finger_commands_in_cycle_witness :
  List.filter (on_channel 1) (out (animate 150 600 touch_world (recv (line "110000") init))) =
  (if differs (recv (line "110000") init) 1
   then List.map (fun i => SetPWM 1 0 (pulse 150 600 1 (rd (state0 (recv (line "110000") init)) 1) i))
                 (steps_before (fun i => gate_hit touch_world i 1) motion_steps)
   else []).
Proof.
  refine (proj1 (finger_commands_in_cycle 150 600 touch_world (recv (line "110000") init) 1
                   (wf_recv _ _ wf_init) _ _)).
  - lia.
  - intros i. reflexivity.
Defined.

Lemma one_command_per_step_witness :
  (length (List.filter (on_channel 0)
             (out (motion_step 150 600 touch_world 5 (recv (line "110000") init)))) <= 1)%nat.
Proof.
  exact (proj1 (one_command_per_step 150 600 touch_world 5 0 (recv (line "110000") init)
                  (wf_recv _ _ wf_init))).
Defined.

Lemma pass_duration_witness :
  total_delay (out (loop 150 600 touch_world (recv (line "110000") init))) =
  (if change (recv (line "110000") init) then 542 else 100) /\
  length (List.filter is_read (out (loop 150 600 touch_world (recv (line "110000") init)))) =
  (if change (recv (line "110000") init) then 130 else 0)%nat.
Proof.
  exact (pass_duration 150 600 touch_world (recv (line "110000") init) (wf_recv _ _ wf_init)).
Defined.

Lemma idle_until_first_line_witness :
  out (loops 150 600 [quiet no_signal; touch_world] init) =
  List.map (fun _ => Delay 100) [quiet no_signal; touch_world] /\
  change (post (loops 150 600 [quiet no_signal; touch_world] init)) = false /\
  state0 (post (loops 150 600 [quiet no_signal; touch_world] init)) = state0 init /\
  state1 (post (loops 150 600 [quiet no_signal; touch_world] init)) = state1 init.
Proof.
  refine (idle_until_first_line 150 600 [quiet no_signal; touch_world] init eq_refl _).
  repeat constructor.
Defined.

Lemma loop_keeps_the_command_witness :
  state0 (post (loops 150 600 [touch_world; quiet no_signal] (recv (line "110000") init))) =
  state0 (recv (line "110000") init) /\
  state (post (loops 150 600 [touch_world; quiet no_signal] (recv (line "110000") init))) =
  state (recv (line "110000") init) /\
  change (post (loops 150 600 [touch_world; quiet no_signal] (recv (line "110000") init))) =
  change (recv (line "110000") init).
Proof.
  refine (loop_keeps_the_command 150 600 [touch_world; quiet no_signal]
            (recv (line "110000") init) (wf_recv _ _ wf_init) _).
  repeat constructor.
Defined.

Lemma reachable_states_are_well_formed_witness :
  length (state0 (post (loop 150 600 latch_world (recv (line "010000") init)))) = 6%nat.
Proof.
  refine (proj1 (reachable_states_are_well_formed 150 600 _ _)).
  apply reach_loop, reach_recv, reach_here.
Defined.

Lemma line_moves_changed_fingers_witness :
  List.filter (on_channel 1) (out (loop 150 600 touch_world (recv (line "110000") init))) =
  if negb (Bool.eqb (flag_of (String.get (Z.to_nat 1) "110000")) (rd (state1 init) 1))
  then List.map (fun i => SetPWM 1 0
                   (pulse 150 600 1 (flag_of (String.get (Z.to_nat 1) "110000")) i))
                (steps_before (fun i => gate_hit touch_world i 1) motion_steps)
  else [].
Proof.
  refine (line_moves_changed_fingers 150 600 touch_world init "110000" 1
            wf_init eq_refl eq_refl _ _).
  - lia.
  - intros i. reflexivity.
Defined.
